(** * extract_code: dependency-aware code extraction (hand_return.py)

    A shallow embedding of [src/hand_return.py] and the properties its
    specification states about it.

    Conventions of the embedding.
    - A [pathlib.Path] is the list of its [parts]; an absolute path starts
      with its root part, ["/"] or ["//"].
    - The file system is a finite map from paths to regular files.  A file
      carries its decoded text and the result of [ast.parse] on that text
      ([None] when the parser raises [SyntaxError]).  [exists()] holds of
      the paths of the map and [open()] succeeds on them: directories,
      files that cannot be read and other operating system errors are
      outside the model.
    - A Python [dict] is an insertion-ordered association list with unique
      keys; a Python [set] of paths is a [gset].
    - The [while] loops run on fuel; [loop_fuel] computes a bound that is
      proved sufficient, so the embedded functions are total.
    - Console output is not modelled, except that a formatting expression
      which can raise ([Path.relative_to]) raises in the model as well, and
      that [print_tree] returns the lines it prints. *)

From stdpp Require Import gmap strings list fin_maps sorting.
From Stdlib Require Import Ascii DecimalString.

#[local] Set Warnings "-clear-no-such-hyp,-register-all".

(* ===================================================================== *)
(** * Python built-ins used by the program *)
(* ===================================================================== *)

Module Py.

(** [sep.join(parts)] *)
Definition join (sep : string) (parts : list string) : string :=
  String.concat sep parts.

(** [pat in s] on strings: [pat] occurs in [s] as a substring. *)
Fixpoint str_contains (pat s : string) : bool :=
  String.prefix pat s ||
  match s with
  | EmptyString => false
  | String _ s' => str_contains pat s'
  end.

(** [s.replace(a, b)] for single characters [a] and [b]. *)
Fixpoint replace_char (a b : ascii) (s : string) : string :=
  match s with
  | EmptyString => EmptyString
  | String c s' => String (if Ascii.eqb c a then b else c) (replace_char a b s')
  end.

(** [s.split(sep)] for a single character [sep]; [cur] is the field being
    read, kept reversed. *)
Fixpoint split_char_aux (sep : ascii) (s : string) (cur : string) : list string :=
  match s with
  | EmptyString => [String.rev cur]
  | String c s' =>
      if Ascii.eqb c sep then String.rev cur :: split_char_aux sep s' EmptyString
      else split_char_aux sep s' (String c cur)
  end.

Definition split_char (sep : ascii) (s : string) : list string :=
  split_char_aux sep s EmptyString.

(** [s.splitlines()].  Line boundaries are LF, CR, CRLF, VT, FF, FS, GS,
    RS, and (in the UTF-8 encoding of the text) NEL, LS and PS.  No empty
    last line is produced for a text that ends with a line boundary. *)
Definition is_line_break (c : ascii) : bool :=
  let n := nat_of_ascii c in
  (n =? 10)%nat || (n =? 11)%nat || (n =? 12)%nat || (n =? 13)%nat ||
  (n =? 28)%nat || (n =? 29)%nat || (n =? 30)%nat.

Fixpoint splitlines_aux (s : string) (cur : string) : list string :=
  match s with
  | EmptyString =>
      match cur with EmptyString => [] | _ => [String.rev cur] end
  | String c s' =>
      if (nat_of_ascii c =? 13)%nat then
        match s' with
        | String c' s'' =>
            if (nat_of_ascii c' =? 10)%nat
            then String.rev cur :: splitlines_aux s'' EmptyString
            else String.rev cur :: splitlines_aux s' EmptyString
        | EmptyString => [String.rev cur]
        end
      else if is_line_break c then String.rev cur :: splitlines_aux s' EmptyString
      else
        match s' with
        | String c1 s1 =>
            if (nat_of_ascii c =? 194)%nat && (nat_of_ascii c1 =? 133)%nat
            then String.rev cur :: splitlines_aux s1 EmptyString
            else
              match s1 with
              | String c2 s2 =>
                  if (nat_of_ascii c =? 226)%nat && (nat_of_ascii c1 =? 128)%nat &&
                     ((nat_of_ascii c2 =? 168)%nat || (nat_of_ascii c2 =? 169)%nat)
                  then String.rev cur :: splitlines_aux s2 EmptyString
                  else splitlines_aux s' (String c cur)
              | EmptyString => splitlines_aux s' (String c cur)
              end
        | EmptyString => splitlines_aux s' (String c cur)
        end
  end.

Definition splitlines (s : string) : list string := splitlines_aux s EmptyString.

(** [l[start:stop]] for non-negative [start] and [stop]. *)
Definition slice {A} (l : list A) (start stop : nat) : list A :=
  take (stop - start) (drop start l).

(** The line feed character, written [\n] in the source. *)
Definition LF : string := String (ascii_of_nat 10) EmptyString.

(** [str(n)] for a non-negative integer. *)
Definition str_of_nat (n : nat) : string :=
  NilEmpty.string_of_uint (Nat.to_uint n).

(** [s * n] *)
Fixpoint repeat_str (s : string) (n : nat) : string :=
  match n with
  | O => EmptyString
  | S n' => s +:+ repeat_str s n'
  end.

(** ** Insertion-ordered dictionaries *)

Section dict.
Context {K V : Type} `{EqDecision K}.

(** [d.get(k)] *)
Fixpoint dict_get (k : K) (d : list (K * V)) : option V :=
  match d with
  | [] => None
  | (k', v) :: d' => if decide (k' = k) then Some v else dict_get k d'
  end.

(** [k in d] *)
Definition dict_mem (k : K) (d : list (K * V)) : bool :=
  match dict_get k d with Some _ => true | None => false end.

(** [d[k] = v]: an existing key keeps its position, a new key goes last. *)
Fixpoint dict_set (k : K) (v : V) (d : list (K * V)) : list (K * V) :=
  match d with
  | [] => [(k, v)]
  | (k', v') :: d' =>
      if decide (k' = k) then (k', v) :: d' else (k', v') :: dict_set k v d'
  end.

(** [d.keys()] *)
Definition dict_keys (d : list (K * V)) : list K := map fst d.

End dict.

(** ** [sorted(items, key=...)]: a stable sort; [le] compares the keys. *)

Section sorted.
Context {A : Type} (le : A → A → bool).

Fixpoint sorted_insert (x : A) (l : list A) : list A :=
  match l with
  | [] => [x]
  | y :: l' => if le y x then y :: sorted_insert x l' else x :: y :: l'
  end.

Definition sorted (l : list A) : list A :=
  fold_left (λ acc x, sorted_insert x acc) l [].

End sorted.

End Py.

Import Py.

(* ===================================================================== *)
(** * Paths and the file system *)
(* ===================================================================== *)

(** [Path.parts]; an absolute path starts with its root part, ["/"] or
    ["//"]. *)
Definition Path := list string.

(** The root parts of POSIX paths. *)
Definition is_root (part : string) : bool :=
  String.eqb part "/" || String.eqb part "//".

(** [str(p)] *)
Definition path_str (p : Path) : string :=
  match p with
  | [] => "."
  | root :: rest =>
      if is_root root then root +:+ join "/" rest else join "/" p
  end.

(** The components of a path string: empty and ["."] components are
    dropped, as [pathlib] does. *)
Definition parse_rel_path (s : string) : list string :=
  filter (λ part, part ≠ "" ∧ part ≠ ".") (split_char "/"%char s).

(** A path string that starts with a slash is absolute. *)
Definition is_absolute_string (s : string) : bool :=
  match s with
  | String c _ => Ascii.eqb c "/"%char
  | EmptyString => false
  end.

(** [Path(s)]: exactly two leading slashes give the root ["//"], one or
    more than two the root ["/"]. *)
Definition path_of_string (s : string) : Path :=
  match s with
  | String c1 (String c2 (String c3 _)) =>
      if Ascii.eqb c1 "/"%char then
        if Ascii.eqb c2 "/"%char && negb (Ascii.eqb c3 "/"%char)
        then "//" :: parse_rel_path s
        else "/" :: parse_rel_path s
      else parse_rel_path s
  | String c1 (String c2 EmptyString) =>
      if Ascii.eqb c1 "/"%char then
        if Ascii.eqb c2 "/"%char then ["//"] else "/" :: parse_rel_path s
      else parse_rel_path s
  | String c1 EmptyString =>
      if Ascii.eqb c1 "/"%char then ["/"] else parse_rel_path s
  | EmptyString => []
  end.

(** [p / s]: an absolute [s] replaces [p], a relative one is appended. *)
Definition path_join (p : Path) (s : string) : Path :=
  if is_absolute_string s then path_of_string s else p ++ parse_rel_path s.

(** [p] with the leading parts [base] removed, if it starts with them. *)
Fixpoint strip_parts (p base : Path) : option (list string) :=
  match base with
  | [] => Some p
  | b :: base' =>
      match p with
      | [] => None
      | x :: p' => if decide (x = b) then strip_parts p' base' else None
      end
  end.

(** [p.relative_to(base)]; [None] stands for [ValueError].  An absolute
    path is not relative to the empty relative path [Path('.')]. *)
Definition relative_to (p base : Path) : option (list string) :=
  match base, p with
  | [], x :: _ => if is_root x then None else Some p
  | _, _ => strip_parts p base
  end.

(** [p.parent] *)
Definition path_parent (p : Path) : Path :=
  match p with
  | [] => []
  | [root] => if is_root root then [root] else []
  | _ => removelast p
  end.

(** [p.name] *)
Definition path_name (p : Path) : string :=
  match p with
  | [] => ""
  | [root] => if is_root root then "" else root
  | _ => List.last p ""
  end.

(** ** Syntax trees, as far as the program inspects them *)

Inductive node_kind : Type :=
  | KImport (names : list string)        (** [import a, b.c]: the [alias.name]s *)
  | KImportFrom (module : option string) (names : list string)
  | KFunctionDef (name : string)
  | KClassDef (name : string)
  | KAssign
  | KOther.                              (** every other node class *)

(** A node with its [lineno], [end_lineno] and [ast.iter_child_nodes]. *)
Inductive ast_node : Type :=
  | Node (kind : node_kind) (lineno : positive) (end_lineno : option positive)
         (children : list ast_node).

Definition node_kind_of (n : ast_node) : node_kind :=
  match n with Node k _ _ _ => k end.
Definition node_lineno (n : ast_node) : positive :=
  match n with Node _ l _ _ => l end.
Definition node_end_lineno (n : ast_node) : option positive :=
  match n with Node _ _ e _ => e end.
Definition node_children (n : ast_node) : list ast_node :=
  match n with Node _ _ _ c => c end.

(** A regular file: its text and [ast.parse] of the text. *)
Record py_file : Type := PyFile {
  content : string;
  ast : option ast_node
}.

Abbreviation file_system := (gmap (list string) py_file).

(** [p.exists()] *)
Definition path_exists (fs : file_system) (p : Path) : bool :=
  bool_decide (is_Some (fs !! p)).

(** ** [ast.walk] *)

Fixpoint node_count (n : ast_node) : nat :=
  match n with
  | Node _ _ _ children => S (list_sum (map node_count children))
  end.

Definition forest_count (l : list ast_node) : nat := list_sum (map node_count l).

(** The body of [ast.walk]: [todo] is the deque; a node is popped from the
    left, its children are appended on the right, the node is yielded. *)
Fixpoint walk_todo (fuel : nat) (todo : list ast_node) : list ast_node :=
  match fuel with
  | O => []
  | S fuel' =>
      match todo with
      | [] => []
      | n :: rest => n :: walk_todo fuel' (rest ++ node_children n)
      end
  end.

Definition walk (tree : ast_node) : list ast_node :=
  walk_todo (node_count tree) [tree].

(** [n] is [tree] or one of its descendants. *)
Inductive in_tree (n : ast_node) : ast_node → Prop :=
  | in_tree_here : in_tree n n
  | in_tree_child t c :
      c ∈ node_children t → in_tree n c → in_tree n t.

(* ===================================================================== *)
(** * Import parser *)
(* ===================================================================== *)

(** One iteration of the loop over [ast.walk(tree)] (lines 15-25). *)
Definition visit_import (imports : list (string * list string)) (n : ast_node)
    : list (string * list string) :=
  match node_kind_of n with
  | KImportFrom (Some module) names =>
      if String.eqb module "" then imports
      else
        let imports1 :=
          if dict_mem module imports then imports else dict_set module [] imports in
        dict_set module (default [] (dict_get module imports1) ++ names) imports1
  | KImport names =>
      fold_left (λ d alias_name, dict_set alias_name ["*"] d) names imports
  | _ => imports
  end.

(** [parse_imports_with_names(file_path)].  Both a failing [open] and a
    failing [ast.parse] are caught and leave [imports] empty. *)
Definition parse_imports_with_names (fs : file_system) (file_path : Path)
    : list (string * list string) :=
  match fs !! file_path with
  | None => []
  | Some f =>
      match ast f with
      | None => []
      | Some tree => fold_left visit_import (walk tree) []
      end
  end.

(* ===================================================================== *)
(** * Symbol extractor and global-scope extractor *)
(* ===================================================================== *)

(** [isinstance(node, (ast.FunctionDef, ast.ClassDef)) and node.name == name] *)
Definition is_def_named (name : string) (n : ast_node) : bool :=
  match node_kind_of n with
  | KFunctionDef nm | KClassDef nm => String.eqb nm name
  | _ => false
  end.

(** [start_line = node.lineno - 1] *)
Definition start_line (n : ast_node) : nat := Pos.to_nat (node_lineno n) - 1.

(** [node.end_lineno if node.end_lineno else start_line + 1] *)
Definition end_line (n : ast_node) : nat :=
  match node_end_lineno n with
  | Some e => Pos.to_nat e
  | None => start_line n + 1
  end.

(** The source lines of a node: [lines[start_line:end_line]]. *)
Definition node_lines (lines : list string) (n : ast_node) : list string :=
  slice lines (start_line n) (end_line n).

(** [extract_function_or_class(file_path, name)]: the first definition in
    [ast.walk] order whose name is [name]; [None] when there is none or
    when opening or parsing the file fails. *)
Definition extract_function_or_class (fs : file_system) (file_path : Path)
    (name : string) : option string :=
  match fs !! file_path with
  | None => None
  | Some f =>
      match ast f with
      | None => None
      | Some tree =>
          let lines := splitlines (content f) in
          match List.find (is_def_named name) (walk tree) with
          | Some node => Some (join LF (node_lines lines node))
          | None => None
          end
      end
  end.

(** [isinstance(node, (ast.Import, ast.ImportFrom, ast.Assign))] *)
Definition is_global_stmt (n : ast_node) : bool :=
  match node_kind_of n with
  | KImport _ | KImportFrom _ _ | KAssign => true
  | _ => false
  end.

(** [get_global_variables(file_path)]: the lines of the top-level imports
    and assignments ([tree.body] is the child list of the module node). *)
Definition get_global_variables (fs : file_system) (file_path : Path) : string :=
  match fs !! file_path with
  | None => ""
  | Some f =>
      let lines := splitlines (content f) in
      match ast f with
      | None => ""
      | Some tree =>
          let globals_code :=
            fold_left
              (λ acc node,
                 if is_global_stmt node then acc ++ node_lines lines node else acc)
              (node_children tree) [] in
          match globals_code with
          | [] => ""
          | _ => join LF globals_code
          end
      end
  end.

(* ===================================================================== *)
(** * Module resolver *)
(* ===================================================================== *)

(** [resolve_import_to_file(import_name, project_dir)] *)
Definition resolve_import_to_file (fs : file_system) (import_name : string)
    (project_dir : Path) : option Path :=
  let path := replace_char "."%char "/"%char import_name in
  let py_file := path_join project_dir (path +:+ ".py") in
  if path_exists fs py_file then Some py_file
  else
    let init_file := path_join (path_join project_dir path) "__init__.py" in
    if path_exists fs init_file then Some init_file else None.

(** The modules the walker never resolves (lines 226-228 and 331-333). *)
Definition skip_modules : list string :=
  ["os"; "sys"; "re"; "cv2"; "uuid"; "numpy"; "tensorflow";
   "PIL"; "flask"; "urllib"; "json"; "time"; "gc"; "io";
   "paddleocr"; "ultralytics"; "torch"; "requests"; "certifi"; "urllib3"].

Definition is_skipped (module : string) : bool :=
  bool_decide (module ∈ skip_modules).

(** [any(pattern in str(current_file) for pattern in exclude_patterns)] *)
Definition is_excluded (exclude_patterns : list string) (p : Path) : bool :=
  existsb (λ pattern, str_contains pattern (path_str p)) exclude_patterns.

(* ===================================================================== *)
(** * Directory tree of the manifest *)
(* ===================================================================== *)

(** The value [{'_is_file': b, '_children': {...}}] stored under a name. *)
Inductive tree_node : Type :=
  | TreeNode (is_file : bool) (children : list (string * tree_node)).

Definition tn_is_file (d : tree_node) : bool :=
  match d with TreeNode b _ => b end.
Definition tn_children (d : tree_node) : list (string * tree_node) :=
  match d with TreeNode _ c => c end.

(** The inner loop of [build_tree_structure] for one file: [current]
    descends into [current[part]['_children']], which is shared with the
    enclosing dictionary, so the update shows in the parent. *)
Fixpoint insert_parts (parts : list string) (current : list (string * tree_node))
    : list (string * tree_node) :=
  match parts with
  | [] => current
  | part :: rest =>
      let current1 :=
        if dict_mem part current then current
        else dict_set part (TreeNode (bool_decide (rest = [])) []) current in
      match dict_get part current1 with
      | Some (TreeNode b ch) => dict_set part (TreeNode b (insert_parts rest ch)) current1
      | None => current1
      end
  end.

Inductive exn : Type := ValueError | FileNotFoundError.

Inductive result (A : Type) : Type :=
  | Ok (a : A)
  | Raise (e : exn).
Arguments Ok {A} a.
Arguments Raise {A} e.

(** [build_tree_structure(files, project_dir)]; [relative_to] raises
    [ValueError] for a file that is not under [project_dir]. *)
Fixpoint build_tree_from (files : list Path) (project_dir : Path)
    (tree : list (string * tree_node)) : result (list (string * tree_node)) :=
  match files with
  | [] => Ok tree
  | file_path :: files' =>
      match relative_to file_path project_dir with
      | None => Raise ValueError
      | Some parts => build_tree_from files' project_dir (insert_parts parts tree)
      end
  end.

Definition build_tree_structure (files : list Path) (project_dir : Path)
    : result (list (string * tree_node)) :=
  build_tree_from files project_dir [].

(** The sort key [(not x[1]['_is_file'], x[0])] of an item [x], and the
    order of two keys: tuples compare by their first differing component,
    [False < True], strings by code point. *)
Definition item_key {A} (is_file_of : A → bool) (x : string * A) : bool * string :=
  (negb (is_file_of x.2), x.1).

Definition key_le (k1 k2 : bool * string) : bool :=
  if Bool.eqb k1.1 k2.1 then String.leb k1.2 k2.2 else negb k1.1.

(** [sorted(tree.items(), key=lambda x: (not x[1]['_is_file'], x[0]))] *)
Definition sorted_items {A} (is_file_of : A → bool) (items : list (string * A))
    : list (string * A) :=
  sorted (λ x y, key_le (item_key is_file_of x) (item_key is_file_of y)) items.

(** The loop of [write_tree] over the sorted items.  Each item carries,
    next to its data, the function that writes its ['_children'] for a
    given prefix (the recursive call of the source). *)
Definition write_items
    (items : list (string * (tree_node * (string → list string))))
    (prefix : string) : list string :=
  let items := sorted_items (λ d, tn_is_file d.1) items in
  concat (imap
    (λ idx '(name, (data, write_sub)),
       let is_last_item := bool_decide (idx = length items - 1) in
       let connector := if is_last_item then "└── " else "├── " in
       let extension := if is_last_item then "    " else "│   " in
       if tn_is_file data
       then [prefix +:+ connector +:+ "📄 " +:+ name +:+ LF]
       else (prefix +:+ connector +:+ "📁 " +:+ name +:+ "/" +:+ LF)
              :: write_sub (prefix +:+ extension))
    items).

Fixpoint write_children (data : tree_node) (prefix : string) {struct data}
    : list string :=
  match data with
  | TreeNode _ children =>
      write_items (map (λ nd, (nd.1, (nd.2, write_children nd.2))) children) prefix
  end.

(** [write_tree(tree_dict, prefix)] (lines 361-372): the strings passed to
    [out.write], in order.  The argument [is_last] is not used by the
    source. *)
Definition write_tree (tree_dict : list (string * tree_node)) (prefix : string)
    : list string :=
  write_items (map (λ nd, (nd.1, (nd.2, write_children nd.2))) tree_dict) prefix.

(** The truncated branch of [print_tree] (lines 137-149): the first
    [max_files_per_dir] children in dictionary order, then two lines. *)
Definition print_truncated (children : list (string * tree_node))
    (child_prefix : string) (max_files_per_dir : nat) : list string :=
  map (λ '(child_name, child_data),
         if tn_is_file child_data
         then child_prefix +:+ "├── 📄 " +:+ child_name
         else child_prefix +:+ "├── 📁 " +:+ child_name +:+ "/")
      (take max_files_per_dir children)
  ++ [child_prefix +:+ "├── ...";
      child_prefix +:+ "└── (up to " +:+ str_of_nat (length children)
        +:+ " files in this directory)"].

(** The loop of [print_tree] over the sorted items; an item carries the
    function that prints its ['_children'] recursively. *)
Definition print_items
    (items : list (string * (tree_node * (string → list string))))
    (prefix : string) (max_files_per_dir : positive) : list string :=
  let items := sorted_items (λ d, tn_is_file d.1) items in
  concat (imap
    (λ idx '(name, (data, print_sub)),
       let is_last_item := bool_decide (idx = length items - 1) in
       let connector := if is_last_item then "└── " else "├── " in
       let extension := if is_last_item then "    " else "│   " in
       if tn_is_file data
       then [prefix +:+ connector +:+ "📄 " +:+ name]
       else
         let child_count := length (tn_children data) in
         (prefix +:+ connector +:+ "📁 " +:+ name +:+ "/")
           :: (if bool_decide (Pos.to_nat max_files_per_dir < child_count)
               then print_truncated (tn_children data) (prefix +:+ extension)
                      (Pos.to_nat max_files_per_dir)
               else print_sub (prefix +:+ extension)))
    items).

Fixpoint print_children (max_files_per_dir : positive) (data : tree_node)
    (prefix : string) {struct data} : list string :=
  match data with
  | TreeNode _ children =>
      print_items
        (map (λ nd, (nd.1, (nd.2, print_children max_files_per_dir nd.2))) children)
        prefix max_files_per_dir
  end.

(** [print_tree(tree, prefix, is_last, max_files_per_dir)]: the lines
    printed.  [max_files_per_dir] is positive: the program passes 8, and
    with 0 the truncated branch would read [child_prefix] before any
    assignment. *)
Definition print_tree (tree : list (string * tree_node)) (prefix : string)
    (max_files_per_dir : positive) : list string :=
  print_items
    (map (λ nd, (nd.1, (nd.2, print_children max_files_per_dir nd.2))) tree)
    prefix max_files_per_dir.

(** [print_directory_structure(files, project_dir)]: the printed strings. *)
Definition print_directory_structure (files : list Path) (project_dir : Path)
    : result (list string) :=
  match build_tree_structure files project_dir with
  | Raise e => Raise e
  | Ok tree =>
      Ok ([LF +:+ repeat_str "=" 80;
           "PROJECT DIRECTORY STRUCTURE (TREE VIEW)";
           repeat_str "=" 80;
           LF +:+ "Total Files to Extract: " +:+ str_of_nat (length files);
           "Project Root: " +:+ path_str project_dir +:+ LF;
           "📁 " +:+ path_name project_dir +:+ "/"]
          ++ print_tree tree "" 8
          ++ [LF +:+ repeat_str "=" 80 +:+ LF])
  end.

(** The expressions of [print_file_locations] that can raise, for one
    file: [file_path.relative_to(project_dir)] and, unless the parent is
    the project directory, [file_path.parent.relative_to(project_dir)]. *)
Definition locations_ok (project_dir : Path) (file_path : Path) : bool :=
  match relative_to file_path project_dir with
  | None => false
  | Some _ =>
      if decide (path_parent file_path = project_dir) then true
      else bool_decide (is_Some (relative_to (path_parent file_path) project_dir))
  end.

(** [print_file_locations(files, project_dir)]: whether it returns or
    raises.  Every failure is a [ValueError], so the order in which the
    sorted files are visited does not show in the result. *)
Definition print_file_locations (files : list Path) (project_dir : Path)
    : result unit :=
  if forallb (locations_ok project_dir) files then Ok tt else Raise ValueError.

(* ===================================================================== *)
(** * Dependency graph walker *)
(* ===================================================================== *)

(** The loop over [imports.items()] that ends an iteration of the walker
    (lines 224-233 and 329-338): a request is appended for every module
    outside the skip list that resolves to a file not yet processed. *)
Definition enqueue_imports (fs : file_system) (project_dir : Path)
    (processed : gset (list string)) (imports : list (string * list string))
    (files_to_process : list (Path * list string)) : list (Path * list string) :=
  fold_left
    (λ queue '(module, names),
       if is_skipped module then queue
       else
         match resolve_import_to_file fs module project_dir with
         | Some file_path =>
             if decide (file_path ∈ processed) then queue
             else queue ++ [(file_path, names)]
         | None => queue
         end)
    imports files_to_process.

(** ** First pass: [discover_files] *)

Record discover_state : Type := DiscoverState {
  d_files_to_process : list (Path * list string);
  d_processed : gset (list string);
  discovered_files : list Path;
  d_opened : list Path            (** the files opened for reading, in order *)
}.

(** One iteration of the [while] loop, after [pop(0)] returned
    [(current_file, names_to_extract)] and left [rest] in the queue. *)
Definition discover_step (fs : file_system) (project_dir : Path)
    (exclude_patterns : list string) (current_file : Path)
    (rest : list (Path * list string)) (s : discover_state) : discover_state :=
  if decide (current_file ∈ d_processed s) then
    DiscoverState rest (d_processed s) (discovered_files s) (d_opened s)
  else
    let processed := {[current_file]} ∪ d_processed s in
    if is_excluded exclude_patterns current_file then
      DiscoverState rest processed (discovered_files s) (d_opened s)
    else
      let imports := parse_imports_with_names fs current_file in
      DiscoverState
        (enqueue_imports fs project_dir processed imports rest)
        processed
        (discovered_files s ++ [current_file])
        (d_opened s ++ [current_file]).

Fixpoint discover_loop (fs : file_system) (project_dir : Path)
    (exclude_patterns : list string) (fuel : nat) (s : discover_state)
    : option discover_state :=
  match d_files_to_process s with
  | [] => Some s
  | (current_file, _) :: rest =>
      match fuel with
      | O => None
      | S fuel' =>
          discover_loop fs project_dir exclude_patterns fuel'
            (discover_step fs project_dir exclude_patterns current_file rest s)
      end
  end.

(** The number of import entries of the files not yet processed. *)
Definition pending_imports (fs : file_system) (processed : gset (list string)) : nat :=
  map_fold
    (λ p (_ : py_file) acc,
       if decide (p ∈ processed) then acc
       else length (parse_imports_with_names fs p) + acc)
    0 fs.

(** An upper bound of the number of iterations of either walker loop. *)
Definition loop_fuel (fs : file_system) (files_to_process : list (Path * list string))
    (processed : gset (list string)) : nat :=
  length files_to_process + pending_imports fs processed.

Definition discover_init (entry_file : Path) : discover_state :=
  DiscoverState [(entry_file, ["*"])] ∅ [] [].

Definition discover_run (fs : file_system) (project_dir entry_file : Path)
    (exclude_patterns : list string) : option discover_state :=
  discover_loop fs project_dir exclude_patterns
    (loop_fuel fs [(entry_file, ["*"])] ∅) (discover_init entry_file).

(** [discover_files(project_dir, entry_file, exclude_patterns)] *)
Definition discover_files (fs : file_system) (project_dir entry_file : Path)
    (exclude_patterns : list string) : option (list Path) :=
  discovered_files <$> discover_run fs project_dir entry_file exclude_patterns.

(** ** Second pass: the extraction loop of [extract_used_code] *)

(** The loop over [names_to_extract] (lines 316-324); a name whose code is
    [None] or empty is reported and skipped. *)
Definition extract_names (fs : file_system) (current_file : Path)
    (names_to_extract : list string) (file_code_parts : list string) : list string :=
  fold_left
    (λ parts name,
       if String.eqb name "*" then parts
       else
         match extract_function_or_class fs current_file name with
         | Some code =>
             if String.eqb code "" then parts else parts ++ [LF +:+ code]
         | None => parts
         end)
    names_to_extract file_code_parts.

(** Lines 299-326: the text stored in [extracted_code[current_file]].
    Reading the whole file raises when the file does not exist. *)
Definition file_code (fs : file_system) (current_file : Path)
    (names_to_extract : list string) : result string :=
  let globals_code := get_global_variables fs current_file in
  let file_code_parts :=
    if String.eqb globals_code "" then [] else [globals_code] in
  if bool_decide ("*" ∈ names_to_extract) then
    match fs !! current_file with
    | Some f => Ok (content f)
    | None => Raise FileNotFoundError
    end
  else
    Ok (join (LF +:+ LF) (extract_names fs current_file names_to_extract file_code_parts)).

(** The [open(..., 'r')] calls of one iteration, in order: the import
    parser, the global-scope extractor, then either the whole-file read or
    one call of the symbol extractor per requested name. *)
Definition opens_of (current_file : Path) (names_to_extract : list string)
    : list Path :=
  [current_file; current_file] ++
  (if bool_decide ("*" ∈ names_to_extract) then [current_file]
   else map (λ _, current_file)
          (filter (λ name, name ≠ "*") names_to_extract)).

Record extract_state : Type := ExtractState {
  files_to_process : list (Path * list string);
  processed : gset (list string);
  extracted_code : list (Path * string);
  opened : list Path              (** the files opened for reading, in order *)
}.

(** One iteration of the [while] loop of lines 275-338, after [pop(0)]
    returned [(current_file, names_to_extract)] and left [rest]. *)
Definition extract_step (fs : file_system) (project_dir : Path)
    (exclude_patterns : list string) (current_file : Path)
    (names_to_extract : list string) (rest : list (Path * list string))
    (s : extract_state) : result extract_state :=
  if decide (current_file ∈ processed s) then
    Ok (ExtractState rest (processed s) (extracted_code s) (opened s))
  else
    let processed' := {[current_file]} ∪ processed s in
    if is_excluded exclude_patterns current_file then
      match relative_to current_file project_dir with
      | None => Raise ValueError          (* formatting the [SKIP] message *)
      | Some _ => Ok (ExtractState rest processed' (extracted_code s) (opened s))
      end
    else
      match relative_to current_file project_dir with
      | None => Raise ValueError          (* formatting the [PROCESS] message *)
      | Some _ =>
          let imports := parse_imports_with_names fs current_file in
          match file_code fs current_file names_to_extract with
          | Raise e => Raise e
          | Ok code =>
              Ok (ExtractState
                    (enqueue_imports fs project_dir processed' imports rest)
                    processed'
                    (dict_set current_file code (extracted_code s))
                    (opened s ++ opens_of current_file names_to_extract))
          end
      end.

Fixpoint extract_loop (fs : file_system) (project_dir : Path)
    (exclude_patterns : list string) (fuel : nat) (s : extract_state)
    : option (result extract_state) :=
  match files_to_process s with
  | [] => Some (Ok s)
  | (current_file, names_to_extract) :: rest =>
      match fuel with
      | O => None
      | S fuel' =>
          match extract_step fs project_dir exclude_patterns
                  current_file names_to_extract rest s with
          | Raise e => Some (Raise e)
          | Ok s' => extract_loop fs project_dir exclude_patterns fuel' s'
          end
      end
  end.

Definition extract_init (entry_file : Path) : extract_state :=
  ExtractState [(entry_file, ["*"])] ∅ [] [].

(** Lines 271-338 with the fuel that suffices. *)
Definition extraction_phase (fs : file_system) (project_dir entry_file : Path)
    (exclude_patterns : list string) : option (result extract_state) :=
  extract_loop fs project_dir exclude_patterns
    (loop_fuel fs [(entry_file, ["*"])] ∅) (extract_init entry_file).

(* ===================================================================== *)
(** * Writing the output artifact *)
(* ===================================================================== *)

(** The strings written before the tree (lines 351-358). *)
Definition write_header (project_dir : Path) (total_files : nat) : list string :=
  [repeat_str "=" 80 +:+ LF;
   "EXTRACTED FILES SUMMARY" +:+ LF;
   repeat_str "=" 80 +:+ LF +:+ LF;
   "Total Files: " +:+ str_of_nat total_files +:+ LF;
   "Project Root: " +:+ path_str project_dir +:+ LF +:+ LF;
   "Directory Tree Structure:" +:+ LF;
   "📁 " +:+ path_name project_dir +:+ "/" +:+ LF].

(** One iteration of the loop over [extracted_code.items()] (lines
    378-389): the strings written, and the exception that stopped the
    iteration, if any. *)
Definition write_section (project_dir : Path) (file_path : Path) (code : string)
    : list string * option exn :=
  let lines := length (splitlines code) in
  let w1 := [LF +:+ repeat_str "=" 60 +:+ LF;
             "FILE: " +:+ path_str file_path +:+ LF] in
  match relative_to file_path project_dir with
  | None => (w1, Some ValueError)
  | Some rel =>
      let w2 := w1 ++ ["Relative Path: " +:+ path_str rel +:+ LF] in
      let directory :=
        if decide (path_parent file_path = project_dir) then Some "(root)"
        else path_str <$> relative_to (path_parent file_path) project_dir in
      match directory with
      | None => (w2, Some ValueError)
      | Some dir =>
          (w2 ++ ["Directory: " +:+ dir +:+ LF;
                  "Extracted Lines: " +:+ str_of_nat lines +:+ LF;
                  repeat_str "=" 60 +:+ LF +:+ LF;
                  code;
                  LF +:+ LF],
           None)
      end
  end.

Fixpoint write_sections (project_dir : Path) (items : list (Path * string))
    : list string * option exn :=
  match items with
  | [] => ([], None)
  | (file_path, code) :: items' =>
      match write_section project_dir file_path code with
      | (w, Some e) => (w, Some e)
      | (w, None) =>
          let '(w', r) := write_sections project_dir items' in (w ++ w', r)
      end
  end.

(** How a call ends.  [Aborted e out]: it raised [e]; [out] holds the
    strings written to the output file until then, [None] when the file
    was never opened for writing.  [Completed out reads]: it returned;
    [out] holds the strings written to the output file and [reads] the
    files opened for reading, in order. *)
Inductive outcome : Type :=
  | Aborted (e : exn) (output_file : option (list string))
  | Completed (output_file : list string) (reads : list Path).

(** Lines 346-391.  Opening the output file for writing is taken to
    succeed. *)
Definition write_output (project_dir : Path) (extracted : list (Path * string))
    (reads : list Path) : outcome :=
  match build_tree_structure (dict_keys extracted) project_dir with
  | Raise e => Aborted e None
  | Ok tree =>
      let '(body, r) := write_sections project_dir extracted in
      let written :=
        write_header project_dir (length extracted)
        ++ write_tree tree ""
        ++ [LF +:+ repeat_str "=" 80 +:+ LF +:+ LF]
        ++ body in
      match r with
      | Some e => Aborted e (Some written)
      | None => Completed written reads
      end
  end.

(* ===================================================================== *)
(** * [extract_used_code] *)
(* ===================================================================== *)

(** [extract_used_code(project_dir, entry_file, output_file,
    exclude_patterns)]; [None] only if a loop ran out of fuel, which
    [extract_used_code_total] excludes. *)
Definition extract_used_code (fs : file_system) (project_dir entry_file : Path)
    (exclude_patterns : option (list string)) : option outcome :=
  let exclude_patterns := default [] exclude_patterns in
  d ← discover_run fs project_dir entry_file exclude_patterns;
  match print_directory_structure (discovered_files d) project_dir with
  | Raise e => Some (Aborted e None)
  | Ok _ =>
      match print_file_locations (discovered_files d) project_dir with
      | Raise e => Some (Aborted e None)
      | Ok _ =>
          r ← extraction_phase fs project_dir entry_file exclude_patterns;
          match r with
          | Raise e => Some (Aborted e None)
          | Ok s =>
              Some (write_output project_dir (extracted_code s)
                      (d_opened d ++ opened s))
          end
      end
  end.

(* ===================================================================== *)
(** * Small projects on which the properties are exercised *)
(* ===================================================================== *)

Module Example.

Definition stmt (k : node_kind) (first last : positive) (children : list ast_node)
    : ast_node :=
  Node k first (Some last) children.

(** A node without children that the program does not inspect (an
    [alias], a [Name], a [Constant], ...). *)
Definition leaf (line : positive) : ast_node := stmt KOther line line [].

Definition project_dir : Path := ["/"; "p"].
Definition main_py : Path := ["/"; "p"; "main.py"].
Definition b_py : Path := ["/"; "p"; "b.py"].
Definition c_py : Path := ["/"; "p"; "c.py"].

Definition text (lines : list string) : string :=
  String.concat "" (map (λ l, l +:+ LF) lines).

(** [b.py]: one global, two functions. *)
Definition b_tree : ast_node :=
  stmt KOther 1 5
    [stmt KAssign 1 1 [leaf 1; leaf 1];
     stmt (KFunctionDef "foo") 2 3 [leaf 2; stmt KOther 3 3 [leaf 3]];
     stmt (KFunctionDef "bar") 4 5 [leaf 4; stmt KOther 5 5 [leaf 5]]].
Definition b_file : py_file :=
  PyFile (text ["X = 1"; "def foo():"; "    return X"; "def bar():"; "    return 2"])
         (Some b_tree).

(** [c.py] with a narrow request and a plain import of the same module. *)
Definition c_import_b : ast_node := stmt (KImport ["b"]) 2 2 [leaf 2].
Definition c_tree : ast_node :=
  stmt KOther 1 2
    [stmt (KImportFrom (Some "b") ["foo"]) 1 1 [leaf 1]; c_import_b].
Definition c_file : py_file :=
  PyFile (text ["from b import foo"; "import b"]) (Some c_tree).

(** Project 1: [main.py] asks [b] for [foo] and imports [c]; [c.py]
    imports [b] as a whole. *)
Definition main1_file : py_file :=
  PyFile (text ["from b import foo"; "import c"])
    (Some (stmt KOther 1 2
             [stmt (KImportFrom (Some "b") ["foo"]) 1 1 [leaf 1];
              stmt (KImport ["c"]) 2 2 [leaf 2]])).
Definition c1_import_b : ast_node := stmt (KImport ["b"]) 1 1 [leaf 1].
Definition c1_tree : ast_node := stmt KOther 1 1 [c1_import_b].
Definition c1_file : py_file := PyFile (text ["import b"]) (Some c1_tree).
Definition fs1 : file_system :=
  <[main_py := main1_file]> (<[b_py := b_file]> (<[c_py := c1_file]> ∅)).

(** Project 2: [main.py] imports [c] and asks [b] for [foo]; [c.py] asks
    [b] for [bar] while [b] is still queued. *)
Definition main2_file : py_file :=
  PyFile (text ["import c"; "from b import foo"])
    (Some (stmt KOther 1 2
             [stmt (KImport ["c"]) 1 1 [leaf 1];
              stmt (KImportFrom (Some "b") ["foo"]) 2 2 [leaf 2]])).
Definition c2_file : py_file :=
  PyFile (text ["from b import bar"])
    (Some (stmt KOther 1 1 [stmt (KImportFrom (Some "b") ["bar"]) 1 1 [leaf 1]])).
Definition fs2 : file_system :=
  <[main_py := main2_file]> (<[b_py := b_file]> (<[c_py := c2_file]> ∅)).


End Example.

(* ===================================================================== *)
(** * Properties *)
(* ===================================================================== *)

(** ** Dictionaries *)

Section dict_facts.
Context {K V : Type} `{EqDecision K}.
Implicit Types (k : K) (v : V) (d : list (K * V)).

Lemma dict_get_set_eq k v d : dict_get k (dict_set k v d) = Some v.
Proof.
  induction d as [|[k' v'] d IH]; simpl.
  - by rewrite decide_True.
  - destruct (decide (k' = k)) as [->|Hne]; simpl.
    + by rewrite decide_True.
    + by rewrite decide_False.
Qed.

Lemma dict_get_set_ne k k' v d :
  k ≠ k' → dict_get k' (dict_set k v d) = dict_get k' d.
Proof.
  intros Hne. induction d as [|[k0 v0] d IH]; simpl.
  - by rewrite decide_False.
  - destruct (decide (k0 = k)) as [->|Hne0]; simpl.
    + by rewrite !decide_False.
    + destruct (decide (k0 = k')); [done | apply IH].
Qed.

Lemma dict_get_None_keys k d : dict_get k d = None ↔ k ∉ dict_keys d.
Proof.
  induction d as [|[k0 v0] d IH]; simpl.
  - split; [intros _; apply not_elem_of_nil | done].
  - destruct (decide (k0 = k)) as [->|Hne].
    + split; [done | intros Hk; exfalso; apply Hk; left].
    + rewrite IH, not_elem_of_cons. split; [intros ?; split; congruence | tauto].
Qed.

Lemma dict_get_Some_keys k v d : dict_get k d = Some v → k ∈ dict_keys d.
Proof.
  intros Hg. destruct (decide (k ∈ dict_keys d)) as [|Hn]; [done|].
  apply dict_get_None_keys in Hn. congruence.
Qed.

Lemma dict_get_Some_elem k v d : dict_get k d = Some v → (k, v) ∈ d.
Proof.
  induction d as [|[k0 v0] d IH]; simpl; [done|].
  destruct (decide (k0 = k)) as [->|Hne].
  - intros [= ->]. left.
  - intros Hg. right. by apply IH.
Qed.

Lemma dict_keys_set_new k v d :
  k ∉ dict_keys d → dict_keys (dict_set k v d) = dict_keys d ++ [k].
Proof.
  induction d as [|[k0 v0] d IH]; simpl; [done|].
  intros [Hne Hd]%not_elem_of_cons.
  rewrite decide_False by done. simpl. by rewrite IH.
Qed.

Lemma dict_keys_set_old k v d :
  k ∈ dict_keys d → dict_keys (dict_set k v d) = dict_keys d.
Proof.
  induction d as [|[k0 v0] d IH]; simpl.
  - by intros ?%elem_of_nil.
  - destruct (decide (k0 = k)) as [->|Hne]; [done|].
    intros [?|Hd]%elem_of_cons; [congruence|]. simpl. by rewrite IH.
Qed.

Lemma dict_set_new k v d : k ∉ dict_keys d → dict_set k v d = d ++ [(k, v)].
Proof.
  induction d as [|[k0 v0] d IH]; simpl; [done|].
  intros [Hne Hd]%not_elem_of_cons.
  rewrite decide_False by done. by rewrite IH.
Qed.

End dict_facts.

(** ** [ast.walk] yields every node of the tree *)

Lemma node_count_pos n : 0 < node_count n.
Proof. destruct n; simpl; lia. Qed.

Lemma forest_count_app l1 l2 :
  forest_count (l1 ++ l2) = forest_count l1 + forest_count l2.
Proof. unfold forest_count. by rewrite map_app, list_sum_app. Qed.

Lemma forest_count_children n :
  S (forest_count (node_children n)) = node_count n.
Proof. by destruct n. Qed.

Lemma walk_todo_complete fuel : ∀ todo t n,
  forest_count todo ≤ fuel → t ∈ todo → in_tree n t → n ∈ walk_todo fuel todo.
Proof.
  induction fuel as [|fuel IH]; intros todo t n Hfuel Ht Hn.
  - destruct todo as [|t0 rest]; [by apply elem_of_nil in Ht|].
    unfold forest_count in Hfuel. simpl in Hfuel.
    pose proof (node_count_pos t0). lia.
  - destruct todo as [|t0 rest]; [by apply elem_of_nil in Ht|].
    simpl.
    assert (Hsmall : forest_count (rest ++ node_children t0) ≤ fuel).
    { rewrite forest_count_app. unfold forest_count in Hfuel |- *.
      simpl in Hfuel. pose proof (forest_count_children t0) as Hc.
      unfold forest_count in Hc. lia. }
    apply elem_of_cons in Ht as [->|Ht].
    + inversion Hn as [|t' c Hc Hin]; subst.
      * left.
      * right. apply (IH _ c); [done | | done].
        apply elem_of_app. by right.
    + right. apply (IH _ t); [done | | done].
      apply elem_of_app. by left.
Qed.

Lemma walk_complete tree n : in_tree n tree → n ∈ walk tree.
Proof.
  intros Hn. unfold walk. apply (walk_todo_complete _ _ tree); [|left|done].
  unfold forest_count. simpl. lia.
Qed.

(** ** Import parser: a wildcard, once recorded, stays *)

Definition has_star (X : string) (imports : list (string * list string)) : Prop :=
  ∃ l, dict_get X imports = Some l ∧ "*" ∈ l.

Lemma has_star_set_star X Y imports :
  X = Y ∨ has_star X imports → has_star X (dict_set Y ["*"] imports).
Proof.
  intros Hc. destruct (decide (Y = X)) as [->|Hne].
  - exists ["*"]. split; [apply dict_get_set_eq | left].
  - destruct Hc as [->|(l & Hl & Hs)]; [done|].
    exists l. split; [|done]. by rewrite dict_get_set_ne.
Qed.

Lemma has_star_import_aliases X names : ∀ imports,
  X ∈ names ∨ has_star X imports →
  has_star X (fold_left (λ d alias_name, dict_set alias_name ["*"] d) names imports).
Proof.
  induction names as [|a names IH]; intros imports Hc; simpl.
  - destruct Hc as [Hc|Hc]; [by apply elem_of_nil in Hc | done].
  - apply IH. destruct Hc as [[->|Hc]%elem_of_cons|Hc].
    + right. apply has_star_set_star. by left.
    + by left.
    + right. apply has_star_set_star. by right.
Qed.

Lemma visit_import_keeps_star X imports n :
  has_star X imports → has_star X (visit_import imports n).
Proof.
  intros Hs. unfold visit_import.
  destruct (node_kind_of n) as [names|[module|] names| | | |]; try done.
  - apply has_star_import_aliases. by right.
  - destruct (String.eqb module "") eqn:Hm; [done|].
    destruct Hs as (l & Hl & Hin).
    destruct (decide (module = X)) as [->|Hne].
    + unfold dict_mem. rewrite Hl. rewrite Hl. simpl.
      exists (l ++ names). split; [apply dict_get_set_eq|].
      apply elem_of_app. by left.
    + exists l. split; [|done].
      rewrite dict_get_set_ne by done.
      destruct (dict_mem module imports); [done|].
      by rewrite dict_get_set_ne.
Qed.

Lemma visit_import_sets_star X imports n names :
  node_kind_of n = KImport names → X ∈ names →
  has_star X (visit_import imports n).
Proof.
  intros Hk HX. unfold visit_import. rewrite Hk.
  apply has_star_import_aliases. by left.
Qed.

Lemma fold_visit_keeps_star X nodes : ∀ imports,
  has_star X imports → has_star X (fold_left visit_import nodes imports).
Proof.
  induction nodes as [|n nodes IH]; intros imports Hs; simpl; [done|].
  apply IH. by apply visit_import_keeps_star.
Qed.

Lemma fold_visit_sets_star X n names nodes : ∀ imports,
  n ∈ nodes → node_kind_of n = KImport names → X ∈ names →
  has_star X (fold_left visit_import nodes imports).
Proof.
  induction nodes as [|n0 nodes IH]; intros imports Hn Hk HX; simpl.
  - by apply elem_of_nil in Hn.
  - apply elem_of_cons in Hn as [->|Hn].
    + apply fold_visit_keeps_star. by eapply visit_import_sets_star.
    + by eapply IH.
Qed.

(** C8.  For a file that parses, a plain [import X] anywhere in its tree
    (at top level or nested) makes [parse_imports_with_names] map [X] to a
    list that contains ["*"], wherever the [from X import ...] statements
    for the same module stand relative to it. *)
Theorem parse_imports_wildcard_dominates
    (fs : file_system) (file_path : Path) (f : py_file) (tree n : ast_node)
    (names : list string) (X : string) :
  fs !! file_path = Some f →
  ast f = Some tree →
  in_tree n tree →
  node_kind_of n = KImport names →
  X ∈ names →
  ∃ l, dict_get X (parse_imports_with_names fs file_path) = Some l ∧ "*" ∈ l.
Proof.
  intros Hf Ht Hn Hk HX. unfold parse_imports_with_names. rewrite Hf, Ht.
  apply (fold_visit_sets_star X n names); [|done|done].
  by apply walk_complete.
Qed.


Lemma parse_imports_wildcard_dominates_witness :
  ∃ l, dict_get "b"
         (parse_imports_with_names ({[Example.c_py := Example.c_file]} : file_system) Example.c_py)
       = Some l ∧ "*" ∈ l.
Proof.
  apply (parse_imports_wildcard_dominates _ _ Example.c_file Example.c_tree
           Example.c_import_b ["b"] "b").
  - vm_compute. reflexivity.
  - reflexivity.
  - eapply in_tree_child; [|apply in_tree_here]. simpl. right. left.
  - reflexivity.
  - left.
Defined.

(** ** Both walker loops terminate within [loop_fuel] iterations *)

Section pending.
Context (g : list string → nat).

Definition pending_weight (P : gset (list string)) (m : file_system) : nat :=
  map_fold (λ p (_ : py_file) acc, if decide (p ∈ P) then acc else g p + acc) 0 m.

Lemma pending_weight_insert P m p f :
  m !! p = None →
  pending_weight P (<[p := f]> m)
  = (if decide (p ∈ P) then 0 else g p) + pending_weight P m.
Proof.
  intros Hp. unfold pending_weight.
  rewrite map_fold_insert_L; [by destruct (decide (p ∈ P))| |done].
  intros j1 j2 z1 z2 y _ _ _.
  destruct (decide (j1 ∈ P)), (decide (j2 ∈ P)); lia.
Qed.

Lemma pending_weight_ext P P' m :
  (∀ q, is_Some (m !! q) → q ∈ P ↔ q ∈ P') →
  pending_weight P m = pending_weight P' m.
Proof.
  induction m as [|p f m Hp IH] using map_ind; intros Hext; [done|].
  rewrite !pending_weight_insert by done.
  rewrite IH.
  - assert (Hiff : p ∈ P ↔ p ∈ P').
    { apply Hext. rewrite lookup_insert_eq. by eexists. }
    destruct (decide (p ∈ P)), (decide (p ∈ P')); tauto || lia.
  - intros q Hq. apply Hext.
    destruct (decide (p = q)) as [->|Hne].
    + rewrite lookup_insert_eq. by eexists.
    + by rewrite lookup_insert_ne.
Qed.

Lemma pending_weight_add_absent P m p :
  m !! p = None → pending_weight ({[p]} ∪ P) m = pending_weight P m.
Proof.
  intros Hp. apply pending_weight_ext. intros q [f Hq].
  assert (q ≠ p) by congruence. set_solver.
Qed.

Lemma pending_weight_add_present P m p f :
  m !! p = Some f → p ∉ P →
  pending_weight ({[p]} ∪ P) m + g p = pending_weight P m.
Proof.
  intros Hp HP.
  rewrite <- (insert_delete_id m p f Hp).
  rewrite !pending_weight_insert by apply lookup_delete_eq.
  rewrite pending_weight_add_absent by apply lookup_delete_eq.
  rewrite decide_True by set_solver. rewrite decide_False by done. lia.
Qed.

End pending.

Lemma pending_imports_weight fs P :
  pending_imports fs P
  = pending_weight (λ p, length (parse_imports_with_names fs p)) P fs.
Proof. done. Qed.

Lemma pending_imports_add fs P p :
  p ∉ P →
  pending_imports fs ({[p]} ∪ P) + length (parse_imports_with_names fs p)
  = pending_imports fs P.
Proof.
  intros HP. rewrite !pending_imports_weight.
  destruct (fs !! p) as [f|] eqn:Hp.
  - by apply (pending_weight_add_present
                (λ q, length (parse_imports_with_names fs q)) P fs p f).
  - rewrite pending_weight_add_absent by done.
    replace (parse_imports_with_names fs p) with (@nil (string * list string))
      by (unfold parse_imports_with_names; by rewrite Hp).
    simpl. lia.
Qed.

Lemma enqueue_imports_length fs pd P imports : ∀ queue,
  length (enqueue_imports fs pd P imports queue) ≤ length queue + length imports.
Proof.
  unfold enqueue_imports.
  induction imports as [|[module names] imports IH]; intros queue; simpl; [lia|].
  etrans; [apply IH|].
  destruct (is_skipped module); [lia|].
  destruct (resolve_import_to_file fs module pd); [|lia].
  destruct (decide (_ ∈ P)); [lia|]. rewrite length_app. simpl. lia.
Qed.

Lemma discover_step_fuel fs pd excl cur names rest s :
  d_files_to_process s = (cur, names) :: rest →
  let s' := discover_step fs pd excl cur rest s in
  S (loop_fuel fs (d_files_to_process s') (d_processed s'))
  ≤ loop_fuel fs (d_files_to_process s) (d_processed s).
Proof.
  intros Hq. unfold discover_step, loop_fuel. rewrite Hq.
  destruct (decide (cur ∈ d_processed s)) as [|Hnew]; simpl; [lia|].
  pose proof (pending_imports_add fs (d_processed s) cur Hnew) as Hadd.
  destruct (is_excluded excl cur); simpl; [lia|].
  pose proof (enqueue_imports_length fs pd ({[cur]} ∪ d_processed s)
                (parse_imports_with_names fs cur) rest). lia.
Qed.

Lemma discover_loop_total fs pd excl fuel : ∀ s,
  loop_fuel fs (d_files_to_process s) (d_processed s) ≤ fuel →
  ∃ s', discover_loop fs pd excl fuel s = Some s' ∧ d_files_to_process s' = [].
Proof.
  induction fuel as [|fuel IH]; intros s Hfuel.
  - destruct (d_files_to_process s) as [|[cur names] rest] eqn:Hq.
    + exists s. simpl. by rewrite Hq.
    + unfold loop_fuel in Hfuel. simpl in Hfuel. lia.
  - destruct (d_files_to_process s) as [|[cur names] rest] eqn:Hq.
    + exists s. simpl. by rewrite Hq.
    + simpl. rewrite Hq. apply IH.
      pose proof (discover_step_fuel fs pd excl cur names rest s Hq) as Hs.
      simpl in Hs. rewrite Hq in Hs. lia.
Qed.

Lemma discover_run_total fs pd entry excl :
  ∃ s, discover_run fs pd entry excl = Some s ∧ d_files_to_process s = [].
Proof. apply discover_loop_total. done. Qed.

Lemma extract_step_fuel fs pd excl cur names rest s s' :
  files_to_process s = (cur, names) :: rest →
  extract_step fs pd excl cur names rest s = Ok s' →
  S (loop_fuel fs (files_to_process s') (processed s'))
  ≤ loop_fuel fs (files_to_process s) (processed s).
Proof.
  intros Hq. unfold extract_step, loop_fuel. rewrite Hq.
  destruct (decide (cur ∈ processed s)) as [|Hnew].
  { intros [= <-]. simpl. lia. }
  pose proof (pending_imports_add fs (processed s) cur Hnew) as Hadd.
  destruct (is_excluded excl cur), (relative_to cur pd); try done.
  { intros [= <-]. simpl. lia. }
  destruct (file_code fs cur names); [|done].
  intros [= <-]. simpl.
  pose proof (enqueue_imports_length fs pd ({[cur]} ∪ processed s)
                (parse_imports_with_names fs cur) rest). lia.
Qed.

Lemma extract_loop_total fs pd excl fuel : ∀ s,
  loop_fuel fs (files_to_process s) (processed s) ≤ fuel →
  ∃ r, extract_loop fs pd excl fuel s = Some r ∧
       match r with Ok s' => files_to_process s' = [] | Raise _ => True end.
Proof.
  induction fuel as [|fuel IH]; intros s Hfuel.
  - destruct (files_to_process s) as [|[cur names] rest] eqn:Hq.
    + exists (Ok s). simpl. by rewrite Hq.
    + unfold loop_fuel in Hfuel. simpl in Hfuel. lia.
  - destruct (files_to_process s) as [|[cur names] rest] eqn:Hq.
    + exists (Ok s). simpl. by rewrite Hq.
    + simpl. rewrite Hq.
      destruct (extract_step fs pd excl cur names rest s) as [s'|e] eqn:Hstep.
      * apply IH.
        pose proof (extract_step_fuel fs pd excl cur names rest s s' Hq Hstep) as Hs.
        rewrite Hq in Hs. lia.
      * by exists (Raise e).
Qed.

Lemma extraction_phase_total fs pd entry excl :
  ∃ r, extraction_phase fs pd entry excl = Some r.
Proof.
  destruct (extract_loop_total fs pd excl (loop_fuel fs [(entry, ["*"])] ∅)
              (extract_init entry)) as (r & Hr & _); [done|]. by exists r.
Qed.

(** The fuel never runs out: [extract_used_code] always has an outcome. *)
Lemma extract_used_code_total fs pd entry excl :
  ∃ o, extract_used_code fs pd entry excl = Some o.
Proof.
  unfold extract_used_code.
  destruct (discover_run_total fs pd entry (default [] excl)) as (d & -> & _).
  simpl.
  destruct (print_directory_structure _ _); [|by eexists].
  destruct (print_file_locations _ _); [|by eexists].
  destruct (extraction_phase_total fs pd entry (default [] excl)) as (r & ->).
  simpl. destruct r; by eexists.
Qed.

(** ** The extraction loop: what a run stores for a file *)

Section extraction.
Context (fs : file_system) (project_dir : Path) (exclude_patterns : list string).

Lemma enqueue_imports_app P imports : ∀ queue,
  enqueue_imports fs project_dir P imports queue
  = queue ++ enqueue_imports fs project_dir P imports [].
Proof.
  unfold enqueue_imports.
  induction imports as [|[module names] imports IH]; intros queue; simpl.
  - by rewrite app_nil_r.
  - destruct (is_skipped module); [apply IH|].
    destruct (resolve_import_to_file fs module project_dir) as [fp|]; [|apply IH].
    destruct (decide (fp ∈ P)); [apply IH|].
    rewrite IH. rewrite (IH [(fp, names)]). by rewrite <- app_assoc.
Qed.

(** Every request that [enqueue_imports] adds is one entry of [imports],
    with the name list of that entry. *)
Lemma enqueue_imports_elem P imports file_path names :
  (file_path, names) ∈ enqueue_imports fs project_dir P imports [] →
  ∃ module, (module, names) ∈ imports ∧ is_skipped module = false ∧
            resolve_import_to_file fs module project_dir = Some file_path ∧
            file_path ∉ P.
Proof.
  unfold enqueue_imports.
  induction imports as [|[module names0] imports IH] using rev_ind; simpl.
  - by intros ?%elem_of_nil.
  - rewrite fold_left_app. simpl.
    set (q := fold_left _ imports []) in *.
    intros Hin.
    assert (Hold : (file_path, names) ∈ q →
                   ∃ module0, (module0, names) ∈ imports ++ [(module, names0)] ∧
                     is_skipped module0 = false ∧
                     resolve_import_to_file fs module0 project_dir = Some file_path ∧
                     file_path ∉ P).
    { intros Hq. destruct (IH Hq) as (m & Hm & Hrest). exists m.
      split; [apply elem_of_app; by left | done]. }
    destruct (is_skipped module) eqn:Hskip; [by apply Hold|].
    destruct (resolve_import_to_file fs module project_dir) as [fp|] eqn:Hres;
      [|by apply Hold].
    destruct (decide (fp ∈ P)) as [|HnP]; [by apply Hold|].
    apply elem_of_app in Hin as [Hin|Hin]; [by apply Hold|].
    apply list_elem_of_singleton in Hin as [= -> ->].
    exists module. split; [apply elem_of_app; right; left | done].
Qed.

(** A processed file keeps the entry it has, or its absence. *)
Lemma extract_loop_preserves fuel : ∀ s final X,
  X ∈ processed s →
  extract_loop fs project_dir exclude_patterns fuel s = Some (Ok final) →
  dict_get X (extracted_code final) = dict_get X (extracted_code s).
Proof.
  induction fuel as [|fuel IH]; intros s final X HX Hloop.
  - simpl in Hloop. destruct (files_to_process s) as [|[cur names] rest]; [|done].
    by injection Hloop as <-.
  - simpl in Hloop. destruct (files_to_process s) as [|[cur names] rest].
    { by injection Hloop as <-. }
    destruct (extract_step fs project_dir exclude_patterns cur names rest s)
      as [s'|e] eqn:Hstep; [|done].
    unfold extract_step in Hstep.
    destruct (decide (cur ∈ processed s)) as [|Hnew].
    { injection Hstep as <-. apply (IH _ _ X) in Hloop; [by rewrite Hloop | done]. }
    assert (Hne : cur ≠ X) by congruence.
    destruct (is_excluded exclude_patterns cur),
             (relative_to cur project_dir); try done.
    { injection Hstep as <-.
      apply (IH _ _ X) in Hloop; [by rewrite Hloop | simpl; set_solver]. }
    destruct (file_code fs cur names) as [code|]; [|done].
    injection Hstep as <-.
    apply (IH _ _ X) in Hloop; [|simpl; set_solver].
    rewrite Hloop. simpl. by rewrite dict_get_set_ne.
Qed.

(** The request with which a file stands first in the queue decides its
    entry: requests for the same file further back are not consulted. *)
Lemma first_request_wins fuel : ∀ s final X names pre post,
  files_to_process s = pre ++ (X, names) :: post →
  X ∉ pre.*1 →
  X ∉ processed s →
  is_excluded exclude_patterns X = false →
  extract_loop fs project_dir exclude_patterns fuel s = Some (Ok final) →
  ∃ code, file_code fs X names = Ok code ∧
          dict_get X (extracted_code final) = Some code.
Proof.
  induction fuel as [|fuel IH]; intros s final X names pre post Hq Hpre HP Hex Hloop.
  - simpl in Hloop. rewrite Hq in Hloop. by destruct pre as [|[??] ?].
  - simpl in Hloop. rewrite Hq in Hloop.
    destruct pre as [|[cur names0] pre']; simpl in Hloop.
    + destruct (extract_step fs project_dir exclude_patterns X names post s)
        as [s'|e] eqn:Hstep; [|done].
      unfold extract_step in Hstep.
      rewrite decide_False in Hstep by done. rewrite Hex in Hstep.
      destruct (relative_to X project_dir); [|done].
      destruct (file_code fs X names) as [code|]; [|done].
      injection Hstep as <-. exists code. split; [done|].
      apply (extract_loop_preserves _ _ _ X) in Hloop; [|simpl; set_solver].
      rewrite Hloop. simpl. apply dict_get_set_eq.
    + apply not_elem_of_cons in Hpre as [Hne Hpre']. simpl in Hne.
      destruct (extract_step fs project_dir exclude_patterns cur names0
                  (pre' ++ (X, names) :: post) s) as [s'|e] eqn:Hstep; [|done].
      unfold extract_step in Hstep.
      destruct (decide (cur ∈ processed s)) as [|Hnew].
      { injection Hstep as <-.
        apply (λ Hq' HP', IH _ final X names pre' post Hq' Hpre' HP' Hex Hloop);
          done. }
      destruct (is_excluded exclude_patterns cur),
               (relative_to cur project_dir); try done.
      { injection Hstep as <-.
        apply (λ Hq' HP', IH _ final X names pre' post Hq' Hpre' HP' Hex Hloop);
          simpl; [done | set_solver]. }
      destruct (file_code fs cur names0) as [code0|]; [|done].
      injection Hstep as <-.
      apply (λ Hq' HP',
               IH _ final X names pre'
                  (post ++ enqueue_imports fs project_dir
                             ({[cur]} ∪ processed s)
                             (parse_imports_with_names fs cur) [])
                  Hq' Hpre' HP' Hex Hloop); simpl.
      * rewrite enqueue_imports_app, <- app_assoc. simpl. reflexivity.
      * set_solver.
Qed.

(** The loop over the requested names adds, in request order, one part
    per name that [extract_function_or_class] finds. *)
Definition requested_bodies (X : Path) (names : list string) : list string :=
  flat_map
    (λ name,
       if String.eqb name "*" then []
       else
         match extract_function_or_class fs X name with
         | Some code => if String.eqb code "" then [] else [LF +:+ code]
         | None => []
         end)
    names.

Lemma extract_names_bodies X names : ∀ parts,
  extract_names fs X names parts = parts ++ requested_bodies X names.
Proof.
  unfold extract_names, requested_bodies.
  induction names as [|name names IH]; intros parts; simpl.
  - by rewrite app_nil_r.
  - rewrite IH. destruct (String.eqb name "*"); [done|].
    destruct (extract_function_or_class fs X name) as [code|]; [|done].
    destruct (String.eqb code ""); [done|]. by rewrite <- app_assoc.
Qed.

(** What the symbol extractor returns is the line span of the first node
    in [ast.walk] order that is a function or class of that name. *)
Lemma extract_function_or_class_Some X name code :
  extract_function_or_class fs X name = Some code →
  ∃ f tree before node after,
    fs !! X = Some f ∧ ast f = Some tree ∧
    walk tree = before ++ node :: after ∧
    is_def_named name node = true ∧
    Forall (λ n, is_def_named name n = false) before ∧
    code = join LF (node_lines (splitlines (content f)) node).
Proof.
  unfold extract_function_or_class.
  destruct (fs !! X) as [f|]; [|done].
  destruct (ast f) as [tree|] eqn:Hast; [|done].
  destruct (List.find (is_def_named name) (walk tree)) as [node|] eqn:Hfind; [|done].
  intros [= <-]. exists f, tree.
  assert (Hsplit : ∃ before after, walk tree = before ++ node :: after ∧
            is_def_named name node = true ∧
            Forall (λ n, is_def_named name n = false) before).
  { clear -Hfind. induction (walk tree) as [|n l IH]; simpl in Hfind; [done|].
    destruct (is_def_named name n) eqn:Hn.
    - injection Hfind as ->. exists [], l. split; [done|]. split; [done|constructor].
    - destruct (IH Hfind) as (b & a & -> & Hnode & Hb).
      exists (n :: b), a. split; [done|]. split; [done|by constructor]. }
  destruct Hsplit as (before & after & Hw & Hnode & Hb).
  exists before, node, after. by split_and!.
Qed.

End extraction.

(** ** C1: wildcard requests *)




(** ** C2: requests are queued one by one *)

(** C2, as stated, fails on project 2.  After [main.py] and [c.py] are
    processed, the queue holds two separate requests for [b.py], [foo]
    and [bar], both arrived while [b.py] was unprocessed; the entry of
    [b.py] is built from [foo] alone and differs from what the union of
    the two requests gives, in either order. *)
Lemma request_merging_counterexample :
  ∃ s1 s2 final,
    extract_step Example.fs2 Example.project_dir [] Example.main_py ["*"] []
      (extract_init Example.main_py) = Ok s1 ∧
    files_to_process s1 = [(Example.c_py, ["*"]); (Example.b_py, ["foo"])] ∧
    extract_step Example.fs2 Example.project_dir [] Example.c_py ["*"]
      [(Example.b_py, ["foo"])] s1 = Ok s2 ∧
    files_to_process s2 = [(Example.b_py, ["foo"]); (Example.b_py, ["bar"])] ∧
    (Example.b_py ∉ processed s2) ∧
    extraction_phase Example.fs2 Example.project_dir Example.main_py []
      = Some (Ok final) ∧
    (Ok <$> dict_get Example.b_py (extracted_code final))
      = Some (file_code Example.fs2 Example.b_py ["foo"]) ∧
    (Ok <$> dict_get Example.b_py (extracted_code final))
      ≠ Some (file_code Example.fs2 Example.b_py ["foo"; "bar"]) ∧
    (Ok <$> dict_get Example.b_py (extracted_code final))
      ≠ Some (file_code Example.fs2 Example.b_py ["bar"; "foo"]).
Proof.
  eexists _, _, _.
  split; [vm_compute; reflexivity|].
  split; [reflexivity|].
  split; [vm_compute; reflexivity|].
  split; [reflexivity|].
  split; [apply (bool_decide_unpack _); vm_compute; exact I|].
  split; [vm_compute; reflexivity|].
  split; [vm_compute; reflexivity|].
  split; vm_compute; intros [=].
Qed.

(** The request that one entry of [imports] puts into the queue: none
    for a module of the skip list, for a module that does not resolve and
    for a file already processed. *)
Definition request_of (fs : file_system) (project_dir : Path)
    (processed : gset (list string)) (entry : string * list string)
    : option (Path * list string) :=
  if is_skipped entry.1 then None
  else
    match resolve_import_to_file fs entry.1 project_dir with
    | Some file_path =>
        if decide (file_path ∈ processed) then None
        else Some (file_path, entry.2)
    | None => None
    end.

(** The queue after the loop over [imports.items()]: the old queue,
    followed by one request per entry that yields one, in the order of the
    entries.  The queue that is there plays no part in what is added. *)
Lemma enqueue_imports_requests fs project_dir P imports : ∀ queue,
  enqueue_imports fs project_dir P imports queue
  = queue ++ omap (request_of fs project_dir P) imports.
Proof.
  unfold enqueue_imports.
  induction imports as [|[module names] imports IH]; intros queue; simpl.
  - by rewrite app_nil_r.
  - rewrite IH. unfold request_of at 2. simpl.
    destruct (is_skipped module); [done|].
    destruct (resolve_import_to_file fs module project_dir) as [fp|]; [|done].
    destruct (decide (fp ∈ P)); [done|]. by rewrite <- app_assoc.
Qed.

(** The queue after an iteration of the extraction loop that processes
    [cur]: what was left of the queue, then the requests of the imports of
    [cur]. *)
Lemma extract_step_queue fs project_dir exclude_patterns cur names rest s s' :
  cur ∉ processed s →
  is_excluded exclude_patterns cur = false →
  extract_step fs project_dir exclude_patterns cur names rest s = Ok s' →
  files_to_process s'
  = rest ++ omap (request_of fs project_dir ({[cur]} ∪ processed s))
              (parse_imports_with_names fs cur).
Proof.
  intros Hnew Hex. unfold extract_step.
  rewrite decide_False by done. rewrite Hex.
  destruct (relative_to cur project_dir); [|done].
  destruct (file_code fs cur names) as [code|]; [|done].
  intros [= <-]. apply enqueue_imports_requests.
Qed.

(** C2, amended.  An iteration of either walker loop that processes a
    file leaves the queued requests as they are and appends, in the order
    of the import entries of the file, one request of its own for every
    entry whose module is outside the skip list and resolves to a file not
    yet processed, with the name list of that entry, also when the file is
    already queued: nothing is merged.  The request used when a file is
    first dequeued is the earliest queued one for that file, alone; a
    request dequeued for a file already processed is dropped. *)
Theorem requests_queued_separately
    (fs : file_system) (project_dir : Path) (exclude_patterns : list string) :
  (∀ cur names rest s s',
     cur ∉ processed s →
     is_excluded exclude_patterns cur = false →
     extract_step fs project_dir exclude_patterns cur names rest s = Ok s' →
     files_to_process s'
     = rest ++ omap (request_of fs project_dir ({[cur]} ∪ processed s))
                 (parse_imports_with_names fs cur)) ∧
  (∀ cur rest d,
     cur ∉ d_processed d →
     is_excluded exclude_patterns cur = false →
     d_files_to_process
       (discover_step fs project_dir exclude_patterns cur rest d)
     = rest ++ omap (request_of fs project_dir ({[cur]} ∪ d_processed d))
                 (parse_imports_with_names fs cur)) ∧
  (∀ cur names rest s s' module names' file_path,
     cur ∉ processed s →
     is_excluded exclude_patterns cur = false →
     extract_step fs project_dir exclude_patterns cur names rest s = Ok s' →
     (module, names') ∈ parse_imports_with_names fs cur →
     is_skipped module = false →
     resolve_import_to_file fs module project_dir = Some file_path →
     file_path ∉ processed s' →
     file_path ∈ rest.*1 →
     ∃ added,
       files_to_process s' = rest ++ added ∧ (file_path, names') ∈ added) ∧
  (∀ fuel s final X names pre post,
     files_to_process s = pre ++ (X, names) :: post →
     X ∉ pre.*1 →
     X ∉ processed s →
     is_excluded exclude_patterns X = false →
     extract_loop fs project_dir exclude_patterns fuel s = Some (Ok final) →
     ∃ code, file_code fs X names = Ok code ∧
             dict_get X (extracted_code final) = Some code) ∧
  (∀ cur names rest s,
     cur ∈ processed s →
     extract_step fs project_dir exclude_patterns cur names rest s
     = Ok (ExtractState rest (processed s) (extracted_code s) (opened s))).
Proof.
  split; [|split; [|split; [|split]]].
  - apply extract_step_queue.
  - intros cur rest d Hnew Hex. unfold discover_step.
    rewrite decide_False by done. rewrite Hex. apply enqueue_imports_requests.
  - intros cur names rest s s' module names' fp Hnew Hex Hstep Hin Hskip Hres
      HnP _.
    exists (omap (request_of fs project_dir ({[cur]} ∪ processed s))
              (parse_imports_with_names fs cur)).
    split; [by eapply extract_step_queue|].
    apply list_elem_of_omap. exists (module, names'). split; [done|].
    unfold request_of. simpl. rewrite Hskip, Hres.
    rewrite decide_False; [done|].
    revert HnP. unfold extract_step in Hstep.
    rewrite decide_False in Hstep by done. rewrite Hex in Hstep.
    destruct (relative_to cur project_dir); [|done].
    destruct (file_code fs cur names) as [code|]; [|done].
    by injection Hstep as <-.
  - apply first_request_wins.
  - intros cur names rest s Hcur. unfold extract_step.
    by rewrite decide_True.
Qed.

(** On project 2, from the initial state: the iteration for [main.py]
    queues [c.py] and the request [foo] for [b.py]; the iteration for
    [c.py] appends the request [bar] for [b.py] behind the queued request
    [foo] for the same file; and the run extracts [b.py] with [foo]
    alone. *)
Lemma requests_queued_separately_witness :
  ∃ s1 s2 final,
    extract_step Example.fs2 Example.project_dir [] Example.main_py ["*"] []
      (extract_init Example.main_py) = Ok s1 ∧
    files_to_process s1 = [(Example.c_py, ["*"]); (Example.b_py, ["foo"])] ∧
    extract_step Example.fs2 Example.project_dir [] Example.c_py ["*"]
      [(Example.b_py, ["foo"])] s1 = Ok s2 ∧
    files_to_process s2 = [(Example.b_py, ["foo"]); (Example.b_py, ["bar"])] ∧
    extract_loop Example.fs2 Example.project_dir [] 3 s1 = Some (Ok final) ∧
    ∃ code, file_code Example.fs2 Example.b_py ["foo"] = Ok code ∧
            dict_get Example.b_py (extracted_code final) = Some code.
Proof.
  destruct (requests_queued_separately Example.fs2 Example.project_dir [])
    as (Hqueue & _ & _ & Hfirst & _).
  eexists _, _, _.
  assert (H1 : extract_step Example.fs2 Example.project_dir [] Example.main_py
                 ["*"] [] (extract_init Example.main_py) = Ok _)
    by (vm_compute; reflexivity).
  lazymatch type of H1 with
  | _ = Ok ?s1 =>
      assert (H2 : extract_step Example.fs2 Example.project_dir [] Example.c_py
                     ["*"] [(Example.b_py, ["foo"])] s1 = Ok _)
        by (vm_compute; reflexivity)
  end.
  split; [exact H1|]. split.
  { rewrite (Hqueue _ _ _ _ _ (not_elem_of_empty _) eq_refl H1).
    vm_compute. reflexivity. }
  split; [exact H2|]. split.
  { rewrite (λ Hnew, Hqueue _ _ _ _ _ Hnew eq_refl H2).
    - vm_compute. reflexivity.
    - apply (bool_decide_unpack _). vm_compute. exact I. }
  split; [vm_compute; reflexivity|].
  lazymatch type of H1 with
  | _ = Ok ?s1 =>
      eapply (Hfirst 3 s1 _ Example.b_py ["foo"] [(Example.c_py, ["*"])] [])
  end.
  - reflexivity.
  - apply (bool_decide_unpack _). vm_compute. exact I.
  - apply (bool_decide_unpack _). vm_compute. exact I.
  - reflexivity.
  - vm_compute. reflexivity.
Defined.

(** ** C5: partial extraction *)














(** ** The traversal: invariants of the extraction loop *)

Section traversal.
Context (fs : file_system) (project_dir : Path) (exclude_patterns : list string).

(** [A] imports a module, outside the skip list, that resolves to [B]. *)
Definition import_edge (A B : Path) : Prop :=
  ∃ module names,
    (module, names) ∈ parse_imports_with_names fs A ∧
    is_skipped module = false ∧
    resolve_import_to_file fs module project_dir = Some B.

(** The files reachable from the entry along import edges between files
    that are not excluded. *)
Inductive reachable_file (entry_file : Path) : Path → Prop :=
  | reachable_entry :
      is_excluded exclude_patterns entry_file = false →
      reachable_file entry_file entry_file
  | reachable_import A B :
      reachable_file entry_file A →
      import_edge A B →
      is_excluded exclude_patterns B = false →
      reachable_file entry_file B.

(** The files in the order in which the loop takes them from the queue
    for the first time and does not exclude them. *)
Fixpoint first_dequeues (fuel : nat) (s : extract_state) : list Path :=
  match files_to_process s with
  | [] => []
  | (current_file, names_to_extract) :: rest =>
      match fuel with
      | O => []
      | S fuel' =>
          (if decide (current_file ∈ processed s) then []
           else if is_excluded exclude_patterns current_file then []
           else [current_file])
          ++ match extract_step fs project_dir exclude_patterns
                     current_file names_to_extract rest s with
             | Ok s' => first_dequeues fuel' s'
             | Raise _ => []
             end
      end
  end.

Definition walker_inv (entry_file : Path) (s : extract_state) : Prop :=
  NoDup (dict_keys (extracted_code s)) ∧
  (∀ p, p ∈ dict_keys (extracted_code s)
        ↔ p ∈ processed s ∧ is_excluded exclude_patterns p = false) ∧
  (∀ A B, A ∈ dict_keys (extracted_code s) → import_edge A B →
          B ∈ processed s ∨ B ∈ (files_to_process s).*1) ∧
  (entry_file ∈ processed s ∨ entry_file ∈ (files_to_process s).*1).

Lemma walker_inv_init entry_file : walker_inv entry_file (extract_init entry_file).
Proof.
  unfold walker_inv, extract_init. simpl. split; [constructor|].
  split; [|split].
  - intros p. split; [by intros ?%elem_of_nil | by intros [?%not_elem_of_empty _]].
  - by intros A B ?%elem_of_nil.
  - right. left.
Qed.

Lemma enqueue_imports_covers P imports module names B : ∀ queue,
  (module, names) ∈ imports →
  is_skipped module = false →
  resolve_import_to_file fs module project_dir = Some B →
  B ∈ P ∨ B ∈ (enqueue_imports fs project_dir P imports queue).*1.
Proof.
  unfold enqueue_imports.
  induction imports as [|[module0 names0] imports IH]; intros queue Hin Hskip Hres.
  - by apply elem_of_nil in Hin.
  - simpl. apply elem_of_cons in Hin as [[= <- <-]|Hin].
    + rewrite Hskip, Hres.
      destruct (decide (B ∈ P)) as [|HnP]; [by left|]. right.
      fold (enqueue_imports fs project_dir P imports (queue ++ [(B, names)])).
      rewrite enqueue_imports_app, !fmap_app. simpl.
      apply elem_of_app. left. apply elem_of_app. right. left.
    + by apply IH.
Qed.

Lemma extract_step_inv entry_file cur names rest s s' :
  files_to_process s = (cur, names) :: rest →
  walker_inv entry_file s →
  extract_step fs project_dir exclude_patterns cur names rest s = Ok s' →
  walker_inv entry_file s'.
Proof.
  intros Hq (Hnd & Hkeys & Hedge & Hentry) Hstep.
  rewrite Hq in Hedge, Hentry. simpl in Hedge, Hentry.
  unfold extract_step in Hstep.
  destruct (decide (cur ∈ processed s)) as [Hold|Hnew].
  { injection Hstep as <-. unfold walker_inv. simpl.
    split; [done|]. split; [done|]. split.
    - intros A B HA HAB.
      destruct (Hedge A B HA HAB) as [?|[->|?]%elem_of_cons]; auto.
    - destruct Hentry as [?|[->|?]%elem_of_cons]; auto. }
  destruct (is_excluded exclude_patterns cur) eqn:Hex.
  { destruct (relative_to cur project_dir); [|done].
    injection Hstep as <-. unfold walker_inv. simpl.
    split; [done|]. split; [|split].
    - intros p. rewrite Hkeys. split.
      + intros [? ?]. split; [set_solver|done].
      + intros [[->%elem_of_singleton|?]%elem_of_union Hp]; [congruence|done].
    - intros A B HA HAB.
      destruct (Hedge A B HA HAB) as [?|[->|?]%elem_of_cons];
        [left; set_solver | left; set_solver | by right].
    - destruct Hentry as [?|[->|?]%elem_of_cons];
        [left; set_solver | left; set_solver | by right]. }
  destruct (relative_to cur project_dir); [|done].
  destruct (file_code fs cur names) as [code|]; [|done].
  injection Hstep as <-.
  assert (Hfresh : cur ∉ dict_keys (extracted_code s)).
  { intros [? _]%Hkeys. done. }
  unfold walker_inv. simpl.
  rewrite dict_keys_set_new by done.
  split; [|split; [|split]].
  - apply NoDup_app. split; [done|]. split; [|apply NoDup_singleton].
    intros p Hp ->%list_elem_of_singleton. done.
  - intros p. rewrite elem_of_app, list_elem_of_singleton, Hkeys. split.
    + intros [[? ?]| ->]; (split; [set_solver|done]).
    + intros [[->%elem_of_singleton|?]%elem_of_union Hp]; [by right | by left].
  - intros A B [HA| ->%list_elem_of_singleton]%elem_of_app HAB.
    + rewrite enqueue_imports_app, fmap_app.
      destruct (Hedge A B HA HAB) as [?|[->|?]%elem_of_cons];
        [left; set_solver | left; set_solver |].
      right. apply elem_of_app. by left.
    + destruct HAB as (module & names' & Hin & Hskip & Hres).
      by eapply enqueue_imports_covers.
  - rewrite enqueue_imports_app, fmap_app.
    destruct Hentry as [?|[->|?]%elem_of_cons];
      [left; set_solver | left; set_solver |].
    right. apply elem_of_app. by left.
Qed.

Lemma extract_loop_inv entry_file fuel : ∀ s final,
  walker_inv entry_file s →
  extract_loop fs project_dir exclude_patterns fuel s = Some (Ok final) →
  walker_inv entry_file final ∧ files_to_process final = [].
Proof.
  induction fuel as [|fuel IH]; intros s final Hinv Hloop; simpl in Hloop.
  - destruct (files_to_process s) as [|[cur names] rest] eqn:Hq; [|done].
    by injection Hloop as <-.
  - destruct (files_to_process s) as [|[cur names] rest] eqn:Hq.
    { by injection Hloop as <-. }
    destruct (extract_step fs project_dir exclude_patterns cur names rest s)
      as [s'|e] eqn:Hstep; [|done].
    apply (IH s'); [|done]. by eapply extract_step_inv.
Qed.

(** At the end every reachable file has an entry. *)
Lemma reachable_has_entry entry_file final X :
  walker_inv entry_file final →
  files_to_process final = [] →
  reachable_file entry_file X →
  X ∈ dict_keys (extracted_code final).
Proof.
  intros (Hnd & Hkeys & Hedge & Hentry) Hq Hreach. rewrite Hq in Hedge, Hentry.
  induction Hreach as [Hex|A B HA IH HAB Hex].
  - apply Hkeys. split; [|done].
    destruct Hentry as [?|?%elem_of_nil]; done.
  - apply Hkeys. split; [|done].
    destruct (Hedge A B IH HAB) as [?|?%elem_of_nil]; done.
Qed.

(** The keys are added in the order of the first dequeues. *)
Lemma extract_loop_keys_order entry_file fuel : ∀ s final,
  walker_inv entry_file s →
  extract_loop fs project_dir exclude_patterns fuel s = Some (Ok final) →
  dict_keys (extracted_code final)
  = dict_keys (extracted_code s) ++ first_dequeues fuel s.
Proof.
  induction fuel as [|fuel IH]; intros s final Hinv Hloop; simpl in Hloop |- *.
  - destruct (files_to_process s) as [|[cur names] rest] eqn:Hq; [|done].
    injection Hloop as <-. by rewrite app_nil_r.
  - destruct (files_to_process s) as [|[cur names] rest] eqn:Hq.
    { injection Hloop as <-. by rewrite app_nil_r. }
    destruct (extract_step fs project_dir exclude_patterns cur names rest s)
      as [s'|e] eqn:Hstep; [|done].
    pose proof (extract_step_inv entry_file cur names rest s s' Hq Hinv Hstep)
      as Hinv'.
    rewrite (IH s' final Hinv' Hloop).
    destruct Hinv as (_ & Hkeys & _).
    unfold extract_step in Hstep.
    destruct (decide (cur ∈ processed s)) as [Hold|Hnew].
    { by injection Hstep as <-. }
    destruct (is_excluded exclude_patterns cur) eqn:Hex.
    { destruct (relative_to cur project_dir); [|done]. by injection Hstep as <-. }
    destruct (relative_to cur project_dir); [|done].
    destruct (file_code fs cur names) as [code|]; [|done].
    injection Hstep as <-. simpl.
    rewrite dict_keys_set_new; [by rewrite <- app_assoc|].
    intros [? _]%Hkeys. done.
Qed.

(** *** The order of a first-in first-out traversal of the import graph *)

(** The files that the imports of [cur] resolve to, in the order of
    [imports.items()], modules of the skip list left out. *)
Definition imported_files (cur : Path) : list Path :=
  omap (λ entry : string * list string,
          if is_skipped entry.1 then None
          else resolve_import_to_file fs entry.1 project_dir)
       (parse_imports_with_names fs cur).

(** The order in which a first-in first-out traversal of the import graph
    visits the files: the head of the queue is dropped when already
    visited; otherwise it is marked visited and, unless excluded, listed,
    its imported files that are not visited joining the queue at the end.
    This traversal carries no requested names and no text. *)
Fixpoint fifo_order (fuel : nat) (queue : list Path)
    (visited : gset (list string)) : list Path :=
  match queue with
  | [] => []
  | cur :: rest =>
      match fuel with
      | O => []
      | S fuel' =>
          if decide (cur ∈ visited) then fifo_order fuel' rest visited
          else
            let visited' := {[cur]} ∪ visited in
            if is_excluded exclude_patterns cur
            then fifo_order fuel' rest visited'
            else
              cur :: fifo_order fuel'
                       (rest ++ filter (λ p, p ∉ visited') (imported_files cur))
                       visited'
      end
  end.

Lemma request_files P imports :
  (omap (request_of fs project_dir P) imports).*1
  = filter (λ p, p ∉ P)
      (omap (λ entry : string * list string,
               if is_skipped entry.1 then None
               else resolve_import_to_file fs entry.1 project_dir)
            imports).
Proof.
  induction imports as [|[module names] imports IH]; [done|].
  cbn [omap list_omap]. unfold request_of at 1. cbn [fst snd].
  destruct (is_skipped module); [exact IH|].
  destruct (resolve_import_to_file fs module project_dir) as [fp|]; [|exact IH].
  rewrite filter_cons.
  destruct (decide (fp ∈ P)) as [Hin|Hout].
  - rewrite decide_False by (intros Hn; by apply Hn). exact IH.
  - rewrite decide_True by done. cbn [fmap list_fmap fst]. by rewrite <- IH.
Qed.

Lemma first_dequeues_fifo fuel : ∀ s final,
  extract_loop fs project_dir exclude_patterns fuel s = Some (Ok final) →
  first_dequeues fuel s
  = fifo_order fuel (files_to_process s).*1 (processed s).
Proof.
  induction fuel as [|fuel IH]; intros s final Hloop; simpl in Hloop |- *.
  - by destruct (files_to_process s) as [|[cur names] rest].
  - destruct (files_to_process s) as [|[cur names] rest] eqn:Hq; [done|].
    destruct (extract_step fs project_dir exclude_patterns cur names rest s)
      as [s'|e] eqn:Hstep; [|done].
    rewrite (IH s' final Hloop). cbn [fmap list_fmap fst].
    unfold extract_step in Hstep.
    destruct (decide (cur ∈ processed s)) as [Hold|Hnew].
    { by injection Hstep as <-. }
    destruct (is_excluded exclude_patterns cur) eqn:Hex.
    { destruct (relative_to cur project_dir); [|done]. by injection Hstep as <-. }
    destruct (relative_to cur project_dir); [|done].
    destruct (file_code fs cur names) as [code|]; [|done].
    injection Hstep as <-. cbn [files_to_process processed app].
    by rewrite enqueue_imports_requests, fmap_app, request_files.
Qed.

Lemma extract_loop_mono fuel : ∀ s r fuel',
  extract_loop fs project_dir exclude_patterns fuel s = Some r →
  fuel ≤ fuel' →
  extract_loop fs project_dir exclude_patterns fuel' s = Some r.
Proof.
  induction fuel as [|fuel IH]; intros s r fuel' Hloop Hle.
  - simpl in Hloop.
    destruct (files_to_process s) as [|[cur names] rest] eqn:Hq; [|done].
    destruct fuel'; simpl; by rewrite Hq.
  - destruct fuel' as [|fuel']; [lia|]. simpl in Hloop |- *.
    destruct (files_to_process s) as [|[cur names] rest]; [done|].
    destruct (extract_step fs project_dir exclude_patterns cur names rest s)
      as [s'|e]; [|done].
    apply (IH s' r fuel' Hloop). lia.
Qed.

(** ** C3: the two passes visit the same files in the same order *)

Definition passes_agree (d : discover_state) (s : extract_state) : Prop :=
  d_files_to_process d = files_to_process s ∧
  d_processed d = processed s ∧
  discovered_files d = dict_keys (extracted_code s).

Lemma passes_in_lockstep entry_file fuel : ∀ d s final,
  passes_agree d s →
  walker_inv entry_file s →
  extract_loop fs project_dir exclude_patterns fuel s = Some (Ok final) →
  ∃ d', discover_loop fs project_dir exclude_patterns fuel d = Some d' ∧
        discovered_files d' = dict_keys (extracted_code final).
Proof.
  induction fuel as [|fuel IH]; intros d s final (Hq & HP & Hd) Hinv Hloop;
    simpl in Hloop |- *; rewrite Hq.
  - destruct (files_to_process s) as [|[cur names] rest]; [|done].
    injection Hloop as <-. by exists d.
  - destruct (files_to_process s) as [|[cur names] rest] eqn:Hqs.
    { injection Hloop as <-. by exists d. }
    destruct (extract_step fs project_dir exclude_patterns cur names rest s)
      as [s'|e] eqn:Hstep; [|done].
    pose proof (extract_step_inv entry_file cur names rest s s' Hqs Hinv Hstep)
      as Hinv'.
    apply (IH _ s' final); [|done|done].
    destruct Hinv as (_ & Hkeys & _).
    unfold extract_step in Hstep. unfold discover_step. rewrite HP.
    destruct (decide (cur ∈ processed s)) as [Hold|Hnew].
    { injection Hstep as <-. by split_and!. }
    destruct (is_excluded exclude_patterns cur) eqn:Hex.
    { destruct (relative_to cur project_dir); [|done].
      injection Hstep as <-. by split_and!. }
    destruct (relative_to cur project_dir); [|done].
    destruct (file_code fs cur names) as [code|]; [|done].
    injection Hstep as <-. split_and!; simpl; [done|done|].
    rewrite dict_keys_set_new, Hd; [done|].
    intros [? _]%Hkeys. done.
Qed.

End traversal.

Lemma passes_same_files fs project_dir entry_file exclude_patterns final :
  extraction_phase fs project_dir entry_file exclude_patterns = Some (Ok final) →
  ∃ d, discover_run fs project_dir entry_file exclude_patterns = Some d ∧
       discovered_files d = dict_keys (extracted_code final).
Proof.
  intros Hphase.
  apply (passes_in_lockstep fs project_dir exclude_patterns entry_file
           (loop_fuel fs [(entry_file, ["*"])] ∅)
           (discover_init entry_file) (extract_init entry_file) final);
    [done | apply walker_inv_init | done].
Qed.

(** C3.  Whenever the extraction phase of [extract_used_code] completes
    and so builds [extracted_code], [discover_files], for the same project
    directory, entry file and exclude patterns, returns exactly the keys
    of [extracted_code], in the same order. *)
Theorem discover_files_eq_extracted_keys
    (fs : file_system) (project_dir entry_file : Path)
    (exclude_patterns : list string) (final : extract_state) :
  extraction_phase fs project_dir entry_file exclude_patterns = Some (Ok final) →
  discover_files fs project_dir entry_file exclude_patterns
  = Some (dict_keys (extracted_code final)).
Proof.
  intros Hphase. unfold discover_files.
  destruct (passes_same_files _ _ _ _ _ Hphase) as (d & -> & <-). done.
Qed.

Lemma discover_files_eq_extracted_keys_witness :
  ∃ final,
    extraction_phase Example.fs1 Example.project_dir Example.main_py []
      = Some (Ok final) ∧
    discover_files Example.fs1 Example.project_dir Example.main_py []
    = Some (dict_keys (extracted_code final)) ∧
    dict_keys (extracted_code final)
    = [Example.main_py; Example.b_py; Example.c_py].
Proof.
  eexists. split; [vm_compute; reflexivity|]. split.
  - apply (discover_files_eq_extracted_keys Example.fs1 Example.project_dir
             Example.main_py []).
    vm_compute. reflexivity.
  - reflexivity.
Defined.

(** ** The output artifact *)

(** The section of the output body for a file with text [code]: eight
    strings, the relative paths being the parts of the path below
    [project_dir]. *)
Definition section_text (project_dir file_path : Path) (code : string)
    : list string :=
  [LF +:+ repeat_str "=" 60 +:+ LF;
   "FILE: " +:+ path_str file_path +:+ LF;
   "Relative Path: "
     +:+ path_str (drop (length project_dir) file_path) +:+ LF;
   "Directory: "
     +:+ (if decide (path_parent file_path = project_dir) then "(root)"
          else path_str (drop (length project_dir) (path_parent file_path)))
     +:+ LF;
   "Extracted Lines: " +:+ str_of_nat (length (splitlines code)) +:+ LF;
   repeat_str "=" 60 +:+ LF +:+ LF;
   code;
   LF +:+ LF].

(** The line written after the tree (line 375). *)
Definition tree_footer : string := LF +:+ repeat_str "=" 80 +:+ LF +:+ LF.

Lemma strip_parts_Some (p base rel : list string) :
  strip_parts p base = Some rel → p = base ++ rel.
Proof.
  revert p. induction base as [|b base IH]; intros p.
  - destruct p; by intros [= <-].
  - destruct p as [|x p]; simpl; [done|].
    destruct (decide (x = b)) as [->|]; [|done].
    intros Hrel. by rewrite (IH p Hrel).
Qed.

Lemma relative_to_Some (p base rel : list string) :
  relative_to p base = Some rel → p = base ++ rel.
Proof.
  unfold relative_to. destruct base as [|b base].
  - destruct p as [|x p]; [by intros [= <-]|].
    destruct (is_root x); [done|]. by intros [= <-].
  - apply strip_parts_Some.
Qed.

Lemma relative_to_drop (p base rel : list string) :
  relative_to p base = Some rel → rel = drop (length base) p.
Proof.
  intros ->%relative_to_Some. by rewrite drop_app_length.
Qed.

Lemma write_section_ok project_dir file_path code :
  locations_ok project_dir file_path = true →
  write_section project_dir file_path code
  = (section_text project_dir file_path code, None).
Proof.
  unfold locations_ok, write_section, section_text.
  destruct (relative_to file_path project_dir) as [rel|] eqn:Hrel; [|done].
  apply relative_to_drop in Hrel as ->.
  destruct (decide (path_parent file_path = project_dir)); [done|].
  intros [rel' Hrel']%bool_decide_eq_true. rewrite Hrel'.
  by apply relative_to_drop in Hrel' as ->.
Qed.

Lemma write_sections_ok project_dir items :
  forallb (locations_ok project_dir) (dict_keys items) = true →
  write_sections project_dir items
  = (concat (map (λ item, section_text project_dir item.1 item.2) items), None).
Proof.
  induction items as [|[file_path code] items IH]; simpl; [done|].
  intros [Hok Hrest]%andb_true_iff.
  rewrite (write_section_ok project_dir file_path code Hok).
  by rewrite (IH Hrest).
Qed.

Lemma extract_used_code_completed fs project_dir entry_file exclude_patterns out reads :
  extract_used_code fs project_dir entry_file exclude_patterns
    = Some (Completed out reads) →
  ∃ d final tree,
    discover_run fs project_dir entry_file (default [] exclude_patterns) = Some d ∧
    print_file_locations (discovered_files d) project_dir = Ok tt ∧
    extraction_phase fs project_dir entry_file (default [] exclude_patterns)
      = Some (Ok final) ∧
    build_tree_structure (dict_keys (extracted_code final)) project_dir = Ok tree ∧
    write_output project_dir (extracted_code final) (d_opened d ++ opened final)
      = Completed out reads.
Proof.
  unfold extract_used_code.
  destruct (discover_run _ _ _ _) as [d|]; [|done]. simpl.
  destruct (print_directory_structure _ _); [|by intros [=]].
  destruct (print_file_locations _ _) as [[]|] eqn:Hloc; [|by intros [=]].
  destruct (extraction_phase _ _ _ _) as [[final|]|] eqn:Hphase; try by intros [=].
  simpl. intros [= Hout].
  unfold write_output in Hout.
  destruct (build_tree_structure _ _) as [tree|] eqn:Htree; [|done].
  exists d, final, tree. split_and!; try done.
  unfold write_output. by rewrite Htree.
Qed.

(** ** C4: each reachable file once, in the order of the first dequeues *)

(** C4.  For a call of [extract_used_code] that completes: the keys of
    [extracted_code] are pairwise distinct; every file reachable from the
    entry file along resolvable import edges between files that are not
    excluded is among them (hence occurs exactly once); the keys stand in
    the order in which a first-in first-out traversal of the import graph
    from the entry file visits the files, whatever fuel beyond the bound
    it is given; the output is the header, the tree built from the keys,
    the footer of the tree and then one section per entry, in the order of
    the keys, so that the body is the sections of the entries before a
    reachable file, none of them for that file, its own section, and the
    sections of the entries after it, none of them for that file; and a
    file that is dequeued when already processed is dropped, the state
    otherwise unchanged. *)
Theorem each_file_once_in_dequeue_order
    (fs : file_system) (project_dir entry_file : Path)
    (exclude_patterns : option (list string)) (out : list string)
    (reads : list Path) :
  extract_used_code fs project_dir entry_file exclude_patterns
    = Some (Completed out reads) →
  let excl := default [] exclude_patterns in
  ∃ final tree,
    extraction_phase fs project_dir entry_file excl = Some (Ok final) ∧
    NoDup (dict_keys (extracted_code final)) ∧
    (∀ X, reachable_file fs project_dir excl entry_file X →
          X ∈ dict_keys (extracted_code final)) ∧
    (∀ fuel,
       loop_fuel fs [(entry_file, ["*"])] ∅ ≤ fuel →
       fifo_order fs project_dir excl fuel [entry_file] ∅
       = dict_keys (extracted_code final)) ∧
    build_tree_structure (dict_keys (extracted_code final)) project_dir
      = Ok tree ∧
    out = write_header project_dir (length (extracted_code final))
          ++ write_tree tree "" ++ [tree_footer]
          ++ concat (map (λ item, section_text project_dir item.1 item.2)
                         (extracted_code final)) ∧
    (∀ X, reachable_file fs project_dir excl entry_file X →
       ∃ before code after,
         extracted_code final = before ++ (X, code) :: after ∧
         (X ∉ dict_keys before) ∧ (X ∉ dict_keys after) ∧
         out = write_header project_dir (length (extracted_code final))
               ++ write_tree tree "" ++ [tree_footer]
               ++ concat (map (λ item, section_text project_dir item.1 item.2)
                              before)
               ++ section_text project_dir X code
               ++ concat (map (λ item, section_text project_dir item.1 item.2)
                              after)) ∧
    (∀ cur names rest s,
       cur ∈ processed s →
       extract_step fs project_dir excl cur names rest s
       = Ok (ExtractState rest (processed s) (extracted_code s) (opened s))).
Proof.
  intros Hrun excl.
  destruct (extract_used_code_completed _ _ _ _ _ _ Hrun)
    as (d & final & tree & Hd & Hloc & Hphase & Htree & Hout).
  fold excl in Hd, Hphase.
  exists final, tree. split; [done|].
  pose proof (walker_inv_init fs project_dir excl entry_file) as Hinit.
  destruct (extract_loop_inv fs project_dir excl entry_file _ _ _ Hinit Hphase)
    as [Hinv Hempty].
  split; [by destruct Hinv|].
  split; [intros X HX; by eapply reachable_has_entry|].
  split.
  { intros fuel Hfuel.
    pose proof (extract_loop_mono fs project_dir excl _ _ _ fuel Hphase Hfuel)
      as Hloop.
    rewrite (extract_loop_keys_order fs project_dir excl entry_file _ _ _
               Hinit Hloop).
    by rewrite (first_dequeues_fifo fs project_dir excl _ _ _ Hloop). }
  split; [done|].
  assert (Hbody : out = write_header project_dir (length (extracted_code final))
            ++ write_tree tree "" ++ [tree_footer]
            ++ concat (map (λ item, section_text project_dir item.1 item.2)
                           (extracted_code final))).
  { assert (Hkeys : discovered_files d = dict_keys (extracted_code final)).
    { destruct (passes_same_files fs project_dir entry_file excl final Hphase)
        as (d' & Hd' & <-). congruence. }
    unfold print_file_locations in Hloc. rewrite Hkeys in Hloc.
    destruct (forallb _ _) eqn:Hall; [|done].
    unfold write_output in Hout. rewrite Htree in Hout.
    rewrite (write_sections_ok _ _ Hall) in Hout. by injection Hout as <- _. }
  split; [exact Hbody|]. split.
  - intros X HX.
    assert (Hin : X ∈ dict_keys (extracted_code final))
      by (by eapply reachable_has_entry).
    destruct Hinv as (Hnd & _). revert Hnd Hbody.
    unfold dict_keys in Hin. apply list_elem_of_In, in_map_iff in Hin
      as ([X' code] & [= ->] & Hin%list_elem_of_In).
    apply list_elem_of_split in Hin as (before & after & ->).
    intros Hnd Hbody. exists before, code, after. split; [done|].
    unfold dict_keys in Hnd. rewrite map_app in Hnd. simpl in Hnd.
    apply NoDup_app in Hnd as (_ & Hsep & [Hafter _]%NoDup_cons).
    split; [intros Hb; apply (Hsep X Hb); left|]. split; [done|].
    rewrite Hbody, map_app, concat_app. done.
  - intros cur names rest s Hcur. unfold extract_step. by rewrite decide_True.
Qed.

(** On project 1 the call completes; the keys, the traversal order and
    the sections of the body are [main.py], [b.py], [c.py]. *)
Lemma each_file_once_in_dequeue_order_witness :
  ∃ out reads final tree,
    extract_used_code Example.fs1 Example.project_dir Example.main_py None
      = Some (Completed out reads) ∧
    extraction_phase Example.fs1 Example.project_dir Example.main_py []
      = Some (Ok final) ∧
    NoDup (dict_keys (extracted_code final)) ∧
    dict_keys (extracted_code final)
      = [Example.main_py; Example.b_py; Example.c_py] ∧
    fifo_order Example.fs1 Example.project_dir [] 20 [Example.main_py] ∅
      = [Example.main_py; Example.b_py; Example.c_py] ∧
    build_tree_structure [Example.main_py; Example.b_py; Example.c_py]
      Example.project_dir = Ok tree ∧
    out = write_header Example.project_dir 3
          ++ write_tree tree "" ++ [tree_footer]
          ++ concat
               [section_text Example.project_dir Example.main_py
                  (content Example.main1_file);
                section_text Example.project_dir Example.b_py
                  (Example.text ["X = 1"; ""; ""; "def foo():"]
                   +:+ "    return X");
                section_text Example.project_dir Example.c_py
                  (content Example.c1_file)].
Proof.
  eexists _, _.
  assert (Hrun : extract_used_code Example.fs1 Example.project_dir
                   Example.main_py None = Some (Completed _ _))
    by (vm_compute; reflexivity).
  destruct (each_file_once_in_dequeue_order Example.fs1 Example.project_dir
              Example.main_py None _ _ Hrun)
    as (final & tree & Hphase & Hnd & _ & Hfifo & Htree & Hout & _ & _).
  assert (Hfinal : Some (Ok final)
                   = extraction_phase Example.fs1 Example.project_dir
                       Example.main_py []) by (symmetry; exact Hphase).
  vm_compute in Hfinal. injection Hfinal as ->.
  eexists. exists tree. split; [exact Hrun|]. split; [exact Hphase|].
  split; [exact Hnd|]. split; [reflexivity|].
  split; [rewrite Hfifo; [reflexivity | vm_compute; lia]|].
  split; [exact Htree|]. exact Hout.
Defined.

(** ** C7: a missing entry file *)

(** C7, as stated, fails when the missing entry file matches an exclude
    pattern: on the empty file system, with the pattern [main], the call
    for [/p/main.py] returns and the output file is written. *)
Lemma missing_entry_counterexample :
  (∅ : file_system) !! Example.main_py = None ∧
  extract_used_code ∅ Example.project_dir Example.main_py (Some ["main"])
  = Some (Completed
            (write_header Example.project_dir 0 ++ [tree_footer])
            []).
Proof. split; [apply lookup_empty | vm_compute; reflexivity]. Qed.

(** C7, amended.  If the entry file does not exist and its path matches
    no exclude pattern, [extract_used_code] raises, and the output file
    has not been opened for writing. *)
Theorem missing_entry_aborts
    (fs : file_system) (project_dir entry_file : Path)
    (exclude_patterns : option (list string)) :
  fs !! entry_file = None →
  is_excluded (default [] exclude_patterns) entry_file = false →
  ∃ e, extract_used_code fs project_dir entry_file exclude_patterns
       = Some (Aborted e None).
Proof.
  intros Hmissing Hex. unfold extract_used_code.
  destruct (discover_run_total fs project_dir entry_file
              (default [] exclude_patterns)) as (d & -> & _).
  simpl.
  destruct (print_directory_structure _ _); [|by eexists].
  destruct (print_file_locations _ _); [|by eexists].
  assert (Hphase : ∃ e, extraction_phase fs project_dir entry_file
                          (default [] exclude_patterns) = Some (Raise e)).
  { unfold extraction_phase, loop_fuel. simpl.
    unfold extract_step. simpl.
    rewrite decide_False by apply not_elem_of_empty. rewrite Hex.
    destruct (relative_to entry_file project_dir); [|by eexists].
    unfold file_code. rewrite bool_decide_eq_true_2 by left.
    rewrite Hmissing. by eexists. }
  destruct Hphase as (e & ->). simpl. by eexists.
Qed.

Lemma missing_entry_aborts_witness :
  ∃ e, extract_used_code Example.fs1 Example.project_dir
         ["/"; "p"; "absent.py"] (Some ["__pycache__"])
       = Some (Aborted e None).
Proof.
  apply (missing_entry_aborts Example.fs1 Example.project_dir
           ["/"; "p"; "absent.py"] (Some ["__pycache__"])).
  - vm_compute. reflexivity.
  - vm_compute. reflexivity.
Defined.

(** ** C9: an excluded entry file *)

(** C9.  If the entry file lies under the project directory and its path
    contains an exclude pattern, [extract_used_code] returns without
    raising, whatever the file system holds: no file is opened for
    reading, and the output file holds the header with a total of 0
    files, no tree line and no code section. *)
Theorem excluded_entry_completes
    (fs : file_system) (project_dir entry_file : Path)
    (exclude_patterns : option (list string)) (rel : list string) :
  relative_to entry_file project_dir = Some rel →
  is_excluded (default [] exclude_patterns) entry_file = true →
  extract_used_code fs project_dir entry_file exclude_patterns
  = Some (Completed
            [repeat_str "=" 80 +:+ LF;
             "EXTRACTED FILES SUMMARY" +:+ LF;
             repeat_str "=" 80 +:+ LF +:+ LF;
             "Total Files: 0" +:+ LF;
             "Project Root: " +:+ path_str project_dir +:+ LF +:+ LF;
             "Directory Tree Structure:" +:+ LF;
             "📁 " +:+ path_name project_dir +:+ "/" +:+ LF;
             LF +:+ repeat_str "=" 80 +:+ LF +:+ LF]
            []).
Proof.
  intros Hrel Hex. unfold extract_used_code.
  assert (Hd : discover_run fs project_dir entry_file (default [] exclude_patterns)
               = Some (DiscoverState [] ({[entry_file]} ∪ ∅) [] [])).
  { unfold discover_run, loop_fuel. simpl. unfold discover_step. simpl.
    rewrite decide_False by apply not_elem_of_empty. rewrite Hex.
    by destruct (pending_imports fs ∅). }
  rewrite Hd. simpl.
  assert (Hphase : extraction_phase fs project_dir entry_file
                     (default [] exclude_patterns)
                   = Some (Ok (ExtractState [] ({[entry_file]} ∪ ∅) [] []))).
  { unfold extraction_phase, loop_fuel. simpl. unfold extract_step. simpl.
    rewrite decide_False by apply not_elem_of_empty. rewrite Hex, Hrel.
    by destruct (pending_imports fs ∅). }
  rewrite Hphase. reflexivity.
Qed.

Lemma excluded_entry_completes_witness :
  ∃ out,
    extract_used_code Example.fs1 Example.project_dir Example.main_py
      (Some ["fine_tuned_model"; "main"])
    = Some (Completed out []) ∧
    "Total Files: 0" +:+ LF ∈ out ∧ length out = 8.
Proof.
  eexists. split; [|split].
  - apply (excluded_entry_completes Example.fs1 Example.project_dir
             Example.main_py (Some ["fine_tuned_model"; "main"]) ["main.py"]).
    + reflexivity.
    + vm_compute. reflexivity.
  - do 3 right. left.
  - reflexivity.
Defined.

(* ===================================================================== *)
(** * The manifest tree *)
(* ===================================================================== *)

(** ** [sorted] returns a sorted permutation *)

Section sorted_facts.
Context {A : Type} (le : A → A → bool).
Hypothesis le_total : ∀ x y, le x y = true ∨ le y x = true.

Definition le_rel (x y : A) : Prop := le x y = true.

Lemma sorted_insert_perm x l : sorted_insert le x l ≡ₚ x :: l.
Proof.
  induction l as [|y l IH]; simpl; [done|].
  destruct (le y x); [|done]. rewrite IH. apply Permutation_swap.
Qed.

Lemma sorted_insert_hd x y l :
  le y x = true → HdRel le_rel y l → HdRel le_rel y (sorted_insert le x l).
Proof.
  intros Hyx Hhd. destruct l as [|z l]; simpl; [by constructor|].
  inversion Hhd; subst. destruct (le z x); by constructor.
Qed.

Lemma sorted_insert_sorted x l :
  Sorted le_rel l → Sorted le_rel (sorted_insert le x l).
Proof.
  induction 1 as [|y l Hs IH Hhd]; simpl.
  - by repeat constructor.
  - destruct (le y x) eqn:Hyx.
    + constructor; [done|]. by apply sorted_insert_hd.
    + constructor; [by constructor|]. constructor.
      unfold le_rel. destruct (le_total x y); congruence.
Qed.

Lemma sorted_fold_perm l : ∀ acc,
  fold_left (λ acc x, sorted_insert le x acc) l acc ≡ₚ acc ++ l.
Proof.
  induction l as [|x l IH]; intros acc; simpl; [by rewrite app_nil_r|].
  rewrite IH, sorted_insert_perm. simpl. apply Permutation_middle.
Qed.

Lemma sorted_fold_sorted l : ∀ acc,
  Sorted le_rel acc →
  Sorted le_rel (fold_left (λ acc x, sorted_insert le x acc) l acc).
Proof.
  induction l as [|x l IH]; intros acc Hacc; simpl; [done|].
  apply IH. by apply sorted_insert_sorted.
Qed.

Lemma sorted_perm l : sorted le l ≡ₚ l.
Proof. unfold sorted. by rewrite sorted_fold_perm. Qed.

Lemma sorted_sorted l : Sorted le_rel (sorted le l).
Proof. apply sorted_fold_sorted. constructor. Qed.

End sorted_facts.

Lemma sorted_insert_map {A B} (g : A → B) (le : A → A → bool)
    (le' : B → B → bool) x l :
  (∀ a b, le' (g a) (g b) = le a b) →
  sorted_insert le' (g x) (map g l) = map g (sorted_insert le x l).
Proof.
  intros Hle. induction l as [|y l IH]; simpl; [done|].
  rewrite Hle. destruct (le y x); simpl; [by rewrite IH | done].
Qed.

Lemma sorted_map {A B} (g : A → B) (le : A → A → bool) (le' : B → B → bool) l :
  (∀ a b, le' (g a) (g b) = le a b) →
  sorted le' (map g l) = map g (sorted le l).
Proof.
  intros Hle. unfold sorted.
  change (@nil B) with (map g []). generalize (@nil A).
  induction l as [|x l IH]; intros acc; simpl; [done|].
  rewrite (sorted_insert_map g le le') by done. apply IH.
Qed.

Lemma key_le_total k1 k2 : key_le k1 k2 = true ∨ key_le k2 k1 = true.
Proof.
  destruct k1 as [b1 s1], k2 as [b2 s2]. unfold key_le. simpl.
  destruct b1, b2; simpl; auto using String.leb_total.
Qed.

(** ** The order of the entries of one directory level *)

(** The order in which the code lists two entries: a file before a
    directory; within a group, by name. *)
Definition files_first (x y : string * tree_node) : Prop :=
  (tn_is_file x.2 = true ∧ tn_is_file y.2 = false) ∨
  (tn_is_file x.2 = tn_is_file y.2 ∧ String.leb x.1 y.1 = true).

(** The order that C6 states: a directory before a file; within a group,
    by name. *)
Definition dirs_first (x y : string * tree_node) : Prop :=
  (tn_is_file x.2 = false ∧ tn_is_file y.2 = true) ∨
  (tn_is_file x.2 = tn_is_file y.2 ∧ String.leb x.1 y.1 = true).

Lemma key_le_files_first (x y : string * tree_node) :
  key_le (item_key tn_is_file x) (item_key tn_is_file y) = true →
  files_first x y.
Proof.
  unfold key_le, item_key, files_first. simpl.
  destruct (tn_is_file x.2), (tn_is_file y.2); simpl; auto.
Qed.

Lemma Sorted_weaken {A} (R1 R2 : A → A → Prop) (l : list A) :
  (∀ x y, R1 x y → R2 x y) → Sorted R1 l → Sorted R2 l.
Proof.
  intros HR Hs. rewrite <- (list_fmap_id l). by apply (Sorted_fmap id R1 R2).
Qed.

Lemma sorted_items_perm (t : list (string * tree_node)) :
  sorted_items tn_is_file t ≡ₚ t.
Proof. apply sorted_perm. Qed.

Lemma sorted_items_files_first (t : list (string * tree_node)) :
  Sorted files_first (sorted_items tn_is_file t).
Proof.
  unfold sorted_items.
  eapply Sorted_weaken; [|apply sorted_sorted].
  - intros x y. apply key_le_files_first.
  - intros x y. apply key_le_total.
Qed.

(** ** [write_tree] and [print_tree], one block per sorted entry *)

(** What [write_tree] writes for the entry at position [idx] of a level
    with [count] entries: the line of the entry and, for a directory, the
    tree of its children. *)
Definition write_entry (count : nat) (prefix : string) (idx : nat)
    (item : string * tree_node) : list string :=
  let is_last_item := bool_decide (idx = count - 1) in
  let connector := if is_last_item then "└── " else "├── " in
  let extension := if is_last_item then "    " else "│   " in
  if tn_is_file item.2
  then [prefix +:+ connector +:+ "📄 " +:+ item.1 +:+ LF]
  else (prefix +:+ connector +:+ "📁 " +:+ item.1 +:+ "/" +:+ LF)
         :: write_tree (tn_children item.2) (prefix +:+ extension).

(** What [print_tree] prints for the entry at position [idx]. *)
Definition print_entry (max_files_per_dir : positive) (count : nat)
    (prefix : string) (idx : nat) (item : string * tree_node) : list string :=
  let is_last_item := bool_decide (idx = count - 1) in
  let connector := if is_last_item then "└── " else "├── " in
  let extension := if is_last_item then "    " else "│   " in
  if tn_is_file item.2
  then [prefix +:+ connector +:+ "📄 " +:+ item.1]
  else (prefix +:+ connector +:+ "📁 " +:+ item.1 +:+ "/")
         :: (if bool_decide (Pos.to_nat max_files_per_dir
                             < length (tn_children item.2))
             then print_truncated (tn_children item.2) (prefix +:+ extension)
                    (Pos.to_nat max_files_per_dir)
             else print_tree (tn_children item.2) (prefix +:+ extension)
                    max_files_per_dir).

Lemma write_children_eq data prefix :
  write_children data prefix = write_tree (tn_children data) prefix.
Proof. by destruct data. Qed.

Lemma print_children_eq max_files_per_dir data prefix :
  print_children max_files_per_dir data prefix
  = print_tree (tn_children data) prefix max_files_per_dir.
Proof. by destruct data. Qed.

Lemma sorted_items_with {B} (sub : tree_node → B) (t : list (string * tree_node)) :
  sorted_items (λ d : tree_node * B, tn_is_file d.1)
    (map (λ nd, (nd.1, (nd.2, sub nd.2))) t)
  = map (λ nd, (nd.1, (nd.2, sub nd.2))) (sorted_items tn_is_file t).
Proof. unfold sorted_items. by apply sorted_map. Qed.

Lemma sorted_items_length (t : list (string * tree_node)) :
  length (sorted_items tn_is_file t) = length t.
Proof. apply Permutation_length, sorted_items_perm. Qed.

Lemma write_tree_unfold t prefix :
  write_tree t prefix
  = concat (imap (write_entry (length t) prefix) (sorted_items tn_is_file t)).
Proof.
  unfold write_tree, write_items. rewrite sorted_items_with.
  rewrite imap_fmap, length_map, sorted_items_length.
  f_equal. apply imap_ext. intros idx [name data] _. simpl.
  unfold write_entry. simpl. by rewrite write_children_eq.
Qed.

Lemma print_tree_unfold t prefix max_files_per_dir :
  print_tree t prefix max_files_per_dir
  = concat (imap (print_entry max_files_per_dir (length t) prefix)
              (sorted_items tn_is_file t)).
Proof.
  unfold print_tree, print_items. rewrite sorted_items_with.
  rewrite imap_fmap, length_map, sorted_items_length.
  f_equal. apply imap_ext. intros idx [name data] _. simpl.
  unfold print_entry. simpl. by rewrite print_children_eq.
Qed.

(** ** C6: the order within a directory level *)

(** C6, as stated, fails on the tree of the files [b.py] and [a/c.py]:
    both renderings list the file [b.py] before the directory [a], and
    the rendered sequence is not in the stated order. *)
Lemma tree_order_counterexample :
  ∃ t,
    build_tree_structure [["/"; "p"; "b.py"]; ["/"; "p"; "a"; "c.py"]] ["/"; "p"]
      = Ok t ∧
    t = [("b.py", TreeNode true []);
         ("a", TreeNode false [("c.py", TreeNode true [])])] ∧
    write_tree t ""
      = ["├── 📄 b.py" +:+ LF; "└── 📁 a/" +:+ LF; "    └── 📄 c.py" +:+ LF] ∧
    print_tree t "" 8 = ["├── 📄 b.py"; "└── 📁 a/"; "    └── 📄 c.py"] ∧
    ¬ Sorted dirs_first (sorted_items tn_is_file t).
Proof.
  eexists. split; [vm_compute; reflexivity|].
  split; [reflexivity|]. split; [vm_compute; reflexivity|].
  split; [vm_compute; reflexivity|].
  vm_compute sorted_items. intros Hs.
  apply Sorted_inv in Hs as [_ Hhd]. inversion Hhd as [|? ? Hd]; subst.
  destruct Hd as [[Hd _]|[Hd _]]; simpl in Hd; discriminate.
Qed.

(** C6, amended.  At every directory level that [write_tree] or the
    sorted loop of [print_tree] renders, the entries are all the entries
    of that level, ordered files first, then directories, by name within
    each group; the output is the concatenation, in that order, of one
    block per entry, which starts with the line of the entry and, for a
    directory, continues with the rendering of its children. *)
Theorem tree_levels_files_first
    (t : list (string * tree_node)) (prefix : string) (max_files_per_dir : positive) :
  sorted_items tn_is_file t ≡ₚ t ∧
  Sorted files_first (sorted_items tn_is_file t) ∧
  write_tree t prefix
    = concat (imap (write_entry (length t) prefix) (sorted_items tn_is_file t)) ∧
  print_tree t prefix max_files_per_dir
    = concat (imap (print_entry max_files_per_dir (length t) prefix)
                (sorted_items tn_is_file t)).
Proof.
  split; [apply sorted_items_perm|].
  split; [apply sorted_items_files_first|].
  split; [apply write_tree_unfold | apply print_tree_unfold].
Qed.

(** ** C10: the written tree lists every file *)

(** The ['_is_file'] flag of the node that the path [q] leads to. *)
Fixpoint flag_at (t : list (string * tree_node)) (q : list string) : option bool :=
  match q with
  | [] => None
  | name :: rest =>
      match dict_get name t with
      | None => None
      | Some d =>
          match rest with
          | [] => Some (tn_is_file d)
          | _ => flag_at (tn_children d) rest
          end
      end
  end.

Lemma flag_at_nil_tree q : flag_at [] q = None.
Proof. by destruct q. Qed.

(** [insert_parts] keeps the flags of the nodes that exist and adds the
    nodes on the new path: directories, and a file at its end. *)
Lemma insert_parts_flag p : ∀ t q,
  flag_at (insert_parts p t) q
  = match flag_at t q with
    | Some b => Some b
    | None =>
        if decide (q ≠ [] ∧ q `prefix_of` p) then Some (bool_decide (q = p))
        else None
    end.
Proof.
  induction p as [|part rest IH]; intros t q; simpl.
  - destruct (flag_at t q); [done|].
    rewrite decide_False; [done|].
    intros [Hne ->%prefix_nil_inv]. done.
  - destruct q as [|name qrest].
    { cbn [flag_at]. rewrite decide_False; [done | by intros [? _]]. }
    set (current1 := if dict_mem part t then t
                     else dict_set part (TreeNode (bool_decide (rest = [])) []) t).
    assert (Hget1 : dict_get part current1
                    = Some (default (TreeNode (bool_decide (rest = [])) [])
                              (dict_get part t))).
    { unfold current1, dict_mem. destruct (dict_get part t) eqn:Hg; [done|].
      apply dict_get_set_eq. }
    rewrite Hget1.
    destruct (default _ (dict_get part t)) as [b ch] eqn:Hnode.
    destruct (decide (name = part)) as [->|Hne].
    + cbn [flag_at]. rewrite dict_get_set_eq.
      destruct (dict_get part t) as [d|] eqn:Hg; simpl in Hnode.
      * subst d. cbn [tn_is_file tn_children]. destruct qrest as [|q1 qrest]; [done|].
        rewrite IH. destruct (flag_at ch (q1 :: qrest)); [done|].
        destruct (decide (q1 :: qrest ≠ [] ∧ (q1 :: qrest) `prefix_of` rest))
          as [[_ Hpre]|Hn].
        -- rewrite decide_True by (split; [done | by apply prefix_cons]).
           f_equal. apply bool_decide_ext. split; congruence.
        -- rewrite decide_False; [done|].
           intros [_ Hpre%prefix_cons_inv_2]. by apply Hn.
      * injection Hnode as <- <-.
        destruct qrest as [|q1 qrest].
        -- rewrite decide_True by (split; [done | apply prefix_cons, prefix_nil]).
           f_equal. apply bool_decide_ext. split; congruence.
        -- cbn [tn_children]. rewrite IH, flag_at_nil_tree.
           destruct (decide (q1 :: qrest ≠ [] ∧ (q1 :: qrest) `prefix_of` rest))
             as [[_ Hpre]|Hn].
           ++ rewrite decide_True by (split; [done | by apply prefix_cons]).
              f_equal. apply bool_decide_ext. split; congruence.
           ++ rewrite decide_False; [done|].
              intros [_ Hpre%prefix_cons_inv_2]. by apply Hn.
    + cbn [flag_at]. rewrite dict_get_set_ne by done.
      assert (Hsame : dict_get name current1 = dict_get name t).
      { unfold current1. destruct (dict_mem part t); [done|].
        by rewrite dict_get_set_ne. }
      rewrite Hsame.
      assert (Hnp : ¬ (name :: qrest ≠ [] ∧ (name :: qrest) `prefix_of` (part :: rest))).
      { intros [_ Hpre]. apply prefix_cons_inv_1 in Hpre. done. }
      destruct (dict_get name t) as [d|]; [|by rewrite decide_False].
      destruct qrest as [|q1 qrest].
      * done.
      * destruct (flag_at (tn_children d) (q1 :: qrest)); [done|].
        by rewrite decide_False.
Qed.

(** The tree holds a node for every non-empty prefix of a path of [L];
    a node flagged as a file is a path of [L], a node flagged as a
    directory is a proper prefix of one. *)
Definition tree_reflects (t : list (string * tree_node)) (L : list (list string))
    : Prop :=
  (∀ q b, flag_at t q = Some b →
          if b then q ∈ L else ∃ l, l ∈ L ∧ q `prefix_of` l ∧ q ≠ l) ∧
  (∀ l q, l ∈ L → q ≠ [] → q `prefix_of` l → is_Some (flag_at t q)).

Lemma tree_reflects_empty : tree_reflects [] [].
Proof.
  split.
  - intros q b. by rewrite flag_at_nil_tree.
  - by intros l q ?%elem_of_nil.
Qed.

Lemma insert_parts_reflects t L p :
  tree_reflects t L → tree_reflects (insert_parts p t) (p :: L).
Proof.
  intros [Hflags Hnodes]. split.
  - intros q b. rewrite insert_parts_flag.
    destruct (flag_at t q) as [b'|] eqn:Hq.
    + intros [= <-]. specialize (Hflags q b' Hq). destruct b'.
      * by right.
      * destruct Hflags as (l & Hl & Hpre & Hne). exists l. split; [by right|done].
    + destruct (decide (q ≠ [] ∧ q `prefix_of` p)) as [[Hne Hpre]|]; [|done].
      intros [= <-]. destruct (decide (q = p)) as [->|Hqp].
      * rewrite bool_decide_eq_true_2 by done. left.
      * rewrite bool_decide_eq_false_2 by done. exists p. split; [left|done].
  - intros l q Hl Hne Hpre. rewrite insert_parts_flag.
    destruct (flag_at t q) as [b'|] eqn:Hq; [by eexists|].
    apply elem_of_cons in Hl as [->|Hl].
    + rewrite decide_True by done. by eexists.
    + destruct (Hnodes l q Hl Hne Hpre) as [b Hb]. congruence.
Qed.

Lemma build_tree_from_reflects project_dir files : ∀ t L t',
  build_tree_from files project_dir t = Ok t' →
  tree_reflects t L →
  ∃ L', tree_reflects t' L' ∧
        ∀ l, l ∈ L' ↔ l ∈ L ∨ ∃ f, f ∈ files ∧ relative_to f project_dir = Some l.
Proof.
  induction files as [|file files IH]; intros t L t' Hbuild Hrefl; simpl in Hbuild.
  - injection Hbuild as <-. exists L. split; [done|].
    intros l. split; [by left|]. intros [?|(f & ?%elem_of_nil & _)]; done.
  - destruct (relative_to file project_dir) as [parts|] eqn:Hrel; [|done].
    destruct (IH _ (parts :: L) _ Hbuild (insert_parts_reflects _ _ _ Hrefl))
      as (L' & Hrefl' & HL').
    exists L'. split; [done|]. intros l. rewrite HL', elem_of_cons. split.
    + intros [[->|?]|(f & Hf & Hfl)].
      * right. exists file. split; [left|done].
      * by left.
      * right. exists f. split; [by right|done].
    + intros [?|(f & [->|Hf]%elem_of_cons & Hfl)].
      * left. by right.
      * left. left. congruence.
      * right. by exists f.
Qed.

Lemma str_app_assoc (a b c : string) : (a +:+ b) +:+ c = a +:+ b +:+ c.
Proof.
  induction a as [|x a IH]; [done|].
  change (String x ((a +:+ b) +:+ c) = String x (a +:+ b +:+ c)).
  by rewrite IH.
Qed.

Lemma elem_of_concat_imap {A B} (f : nat → A → list B) (l : list A) idx x y :
  l !! idx = Some x → y ∈ f idx x → y ∈ concat (imap f l).
Proof.
  intros Hidx Hy. apply list_elem_of_In, in_concat. exists (f idx x).
  split; apply list_elem_of_In; [by eapply elem_of_lookup_imap_2 | done].
Qed.

(** A file node reached through directory nodes has its line in what
    [write_tree] writes. *)
Lemma write_tree_lists_file l : ∀ t prefix name,
  last l = Some name →
  flag_at t l = Some true →
  (∀ q, q ≠ [] → q `prefix_of` l → q ≠ l → flag_at t q = Some false) →
  ∃ pre, (pre +:+ "📄 " +:+ name +:+ LF) ∈ write_tree t prefix.
Proof.
  induction l as [|part rest IH]; intros t prefix name Hlast Hflag Hdirs; [done|].
  simpl in Hflag.
  destruct (dict_get part t) as [d|] eqn:Hget; [|done].
  pose proof (dict_get_Some_elem _ _ _ Hget) as Hin.
  rewrite <- (sorted_items_perm t) in Hin.
  apply list_elem_of_lookup in Hin as [idx Hidx].
  rewrite write_tree_unfold.
  destruct rest as [|r rest].
  - injection Hflag as Hfile. injection Hlast as <-.
    eexists (prefix +:+ _).
    eapply elem_of_concat_imap; [exact Hidx|].
    unfold write_entry. simpl. rewrite Hfile.
    rewrite str_app_assoc. left.
  - assert (Hdir : tn_is_file d = false).
    { specialize (Hdirs [part]). simpl in Hdirs. rewrite Hget in Hdirs.
      assert (Some (tn_is_file d) = Some false) as [= ->]; [|done].
      apply Hdirs; [done | apply prefix_cons, prefix_nil | done]. }
    destruct (IH (tn_children d)
                (prefix +:+ (if bool_decide (idx = length t - 1)
                             then "    " else "│   ")) name)
      as [pre Hpre].
    + by rewrite <- Hlast.
    + done.
    + intros q Hq Hpre Hne.
      specialize (Hdirs (part :: q)). simpl in Hdirs. rewrite Hget in Hdirs.
      destruct q as [|q1 q]; [done|].
      apply Hdirs; [done | by apply prefix_cons | congruence].
    + exists pre. eapply elem_of_concat_imap; [exact Hidx|].
      unfold write_entry. simpl. rewrite Hdir. by right.
Qed.

(** The number of lines of a tree that is listed in full: one per entry,
    and under every directory those of its children. *)
Fixpoint listed_under (d : tree_node) : nat :=
  match d with
  | TreeNode b children =>
      if b then 0 else list_sum (map (λ nd, S (listed_under nd.2)) children)
  end.

Definition listed_count (t : list (string * tree_node)) : nat :=
  list_sum (map (λ nd, S (listed_under nd.2)) t).

Fixpoint tree_node_nested_ind (P : tree_node → Prop)
    (step : ∀ b children, Forall (λ nd, P nd.2) children → P (TreeNode b children))
    (d : tree_node) {struct d} : P d :=
  match d with
  | TreeNode b children =>
      step b children
        ((fix go (l : list (string * tree_node)) : Forall (λ nd, P nd.2) l :=
            match l with
            | [] => List.Forall_nil _
            | nd :: l' =>
                List.Forall_cons _ nd l' (tree_node_nested_ind P step nd.2) (go l')
            end) children)
  end.

Lemma length_concat_imap {A B} (f : nat → A → list B) (g : A → nat) (l : list A) :
  (∀ idx x, x ∈ l → length (f idx x) = g x) →
  length (concat (imap f l)) = list_sum (map g l).
Proof.
  revert f. induction l as [|x l IH]; intros f Hf; simpl; [done|].
  rewrite length_app, Hf by left. f_equal.
  apply IH. intros idx y Hy. apply Hf. by right.
Qed.

Lemma write_tree_length_children t :
  Forall (λ nd, ∀ prefix,
            length (write_tree (tn_children nd.2) prefix)
            = (if tn_is_file nd.2 then length (write_tree (tn_children nd.2) prefix)
               else listed_under nd.2)) t →
  ∀ prefix, length (write_tree t prefix) = listed_count t.
Proof.
  intros Hall prefix. rewrite write_tree_unfold. unfold listed_count.
  assert (Hsum : list_sum (map (λ nd, S (listed_under nd.2)) t)
                 = list_sum (map (λ nd, S (listed_under nd.2))
                               (sorted_items tn_is_file t))).
  { apply Permutation_list_sum, fmap_Permutation. symmetry.
    apply sorted_items_perm. }
  rewrite Hsum. apply length_concat_imap. intros idx [name d] Hin.
  rewrite sorted_items_perm in Hin.
  rewrite Forall_forall in Hall. specialize (Hall _ Hin). simpl in Hall.
  unfold write_entry. simpl. destruct d as [[] ch]; simpl in *; [done|].
  by rewrite Hall.
Qed.

Lemma write_tree_length t prefix : length (write_tree t prefix) = listed_count t.
Proof.
  revert prefix. apply write_tree_length_children.
  apply Forall_forall. intros [name d] _. simpl.
  induction d as [b ch IH] using tree_node_nested_ind.
  intros prefix. destruct b; simpl; [done|].
  apply (write_tree_length_children ch). clear prefix.
  apply Forall_forall. intros nd Hnd prefix.
  rewrite Forall_forall in IH. specialize (IH nd Hnd prefix).
  destruct nd as [n [b' ch']]. simpl in *. destruct b'; [done|].
  exact IH.
Qed.

(** No path of [L] is a proper prefix of another: no file of the list
    lies below another file of the list. *)
Definition prefix_free (L : list (list string)) : Prop :=
  Forall (λ l1, Forall (λ l2, l1 `prefix_of` l2 → l1 = l2) L) L.

Lemma prefix_free_spec L l1 l2 :
  prefix_free L → l1 ∈ L → l2 ∈ L → l1 `prefix_of` l2 → l1 = l2.
Proof.
  unfold prefix_free. rewrite Forall_forall. intros HL H1 H2.
  specialize (HL l1 H1). rewrite Forall_forall in HL. by apply HL.
Qed.

Lemma print_tree_truncates name children prefix (max_files_per_dir : positive) :
  Pos.to_nat max_files_per_dir < length children →
  print_tree [(name, TreeNode false children)] prefix max_files_per_dir
  = (prefix +:+ "└── 📁 " +:+ name +:+ "/")
      :: print_truncated children (prefix +:+ "    ") (Pos.to_nat max_files_per_dir).
Proof.
  intros Hmany. rewrite print_tree_unfold. unfold sorted_items, sorted. simpl.
  unfold print_entry. simpl. rewrite bool_decide_eq_true_2 by done.
  by rewrite app_nil_r.
Qed.

(** C10.  The tree that [write_tree] writes for the extracted files has a
    file line for every one of them, however many entries a directory
    has, and its number of lines is that of a full listing: one line per
    entry of a level and, under every directory, the lines of all its
    children.  [print_tree], in contrast, cuts the children of a
    directory with more than [max_files_per_dir] entries down to the
    first [max_files_per_dir] and two closing lines.  (The files are
    regular files, so none lies below another.) *)
Theorem write_tree_lists_every_file
    (files : list Path) (project_dir : Path) (tree : list (string * tree_node)) :
  build_tree_structure files project_dir = Ok tree →
  prefix_free (omap (λ f, relative_to f project_dir) files) →
  (∀ f rel name,
     f ∈ files → relative_to f project_dir = Some rel → last rel = Some name →
     ∃ pre, (pre +:+ "📄 " +:+ name +:+ LF) ∈ write_tree tree "") ∧
  length (write_tree tree "") = listed_count tree ∧
  (∀ name children prefix (max_files_per_dir : positive),
     Pos.to_nat max_files_per_dir < length children →
     print_tree [(name, TreeNode false children)] prefix max_files_per_dir
     = (prefix +:+ "└── 📁 " +:+ name +:+ "/")
         :: print_truncated children (prefix +:+ "    ")
              (Pos.to_nat max_files_per_dir)).
Proof.
  intros Hbuild Hfree.
  split; [|split; [apply write_tree_length | apply print_tree_truncates]].
  destruct (build_tree_from_reflects project_dir files [] [] tree Hbuild
              tree_reflects_empty) as (L & [Hflags Hnodes] & HL).
  assert (HLrel : ∀ l, l ∈ L → l ∈ omap (λ f, relative_to f project_dir) files).
  { intros l [?%elem_of_nil|(f & Hf & Hrel)]%HL; [done|].
    apply list_elem_of_omap. by exists f. }
  intros f rel name Hf Hrel Hlast.
  assert (HrelL : rel ∈ L) by (apply HL; right; by exists f).
  assert (Hne : rel ≠ []) by (by intros ->).
  apply write_tree_lists_file with (l := rel); [done| |].
  - destruct (Hnodes rel rel HrelL Hne) as [b Hb]; [done|].
    destruct b; [done|].
    destruct (Hflags rel false Hb) as (l & Hl & Hpre & Hneq).
    exfalso. apply Hneq. apply (prefix_free_spec _ _ _ Hfree); auto.
  - intros q Hq Hpre Hneq.
    destruct (Hnodes rel q HrelL Hq Hpre) as [b Hb].
    destruct b; [|done].
    exfalso. apply Hneq. apply (prefix_free_spec _ _ _ Hfree); auto.
    apply HLrel. exact (Hflags q true Hb).
Qed.

Module Example9.

(** A directory [d] with nine files. *)
Definition files : list Path :=
  map (λ name, ["/"; "p"; "d"; name])
    ["f1.py"; "f2.py"; "f3.py"; "f4.py"; "f5.py";
     "f6.py"; "f7.py"; "f8.py"; "f9.py"].

Definition tree : list (string * tree_node) :=
  [("d", TreeNode false
           (map (λ name, (name, TreeNode true []))
              ["f1.py"; "f2.py"; "f3.py"; "f4.py"; "f5.py";
               "f6.py"; "f7.py"; "f8.py"; "f9.py"]))].

End Example9.

Lemma write_tree_lists_every_file_witness :
  (∃ pre, (pre +:+ "📄 " +:+ "f9.py" +:+ LF) ∈ write_tree Example9.tree "") ∧
  length (write_tree Example9.tree "") = 10 ∧
  ("    └── 📄 f9.py" +:+ LF) ∈ write_tree Example9.tree "" ∧
  print_tree Example9.tree "" 8
  = ["└── 📁 d/";
     "    ├── 📄 f1.py"; "    ├── 📄 f2.py"; "    ├── 📄 f3.py";
     "    ├── 📄 f4.py"; "    ├── 📄 f5.py"; "    ├── 📄 f6.py";
     "    ├── 📄 f7.py"; "    ├── 📄 f8.py";
     "    ├── ..."; "    └── (up to 9 files in this directory)"].
Proof.
  destruct (write_tree_lists_every_file Example9.files Example.project_dir
              Example9.tree) as (Hlisted & Hcount & _).
  - vm_compute. reflexivity.
  - apply (bool_decide_unpack _). vm_compute. exact I.
  - split; [|split; [|split]].
    + apply (Hlisted ["/"; "p"; "d"; "f9.py"] ["d"; "f9.py"] "f9.py").
      * apply (bool_decide_unpack _). vm_compute. exact I.
      * reflexivity.
      * reflexivity.
    + rewrite Hcount. reflexivity.
    + apply (bool_decide_unpack _). vm_compute. exact I.
    + vm_compute. reflexivity.
Defined.

(* ===================================================================== *)
(** * Further properties of the code *)
(* ===================================================================== *)

(** ** [ast.walk]: breadth first, every node once *)

Lemma walk_todo_sound fuel : ∀ todo n,
  n ∈ walk_todo fuel todo → ∃ t, t ∈ todo ∧ in_tree n t.
Proof.
  induction fuel as [|fuel IH]; intros todo n Hn; simpl in Hn.
  - by apply elem_of_nil in Hn.
  - destruct todo as [|t0 rest]; [by apply elem_of_nil in Hn|].
    apply elem_of_cons in Hn as [->|Hn].
    + exists t0. split; [left | apply in_tree_here].
    + destruct (IH _ _ Hn) as (t & [Ht|Ht]%elem_of_app & Hin).
      * exists t. split; [by right | done].
      * exists t0. split; [left | by eapply in_tree_child].
Qed.

Lemma walk_sound tree n : n ∈ walk tree → in_tree n tree.
Proof.
  intros Hn. destruct (walk_todo_sound _ _ _ Hn) as (t & Ht & Hin).
  by apply list_elem_of_singleton in Ht as ->.
Qed.

Lemma walk_todo_prefix l : ∀ fuel l',
  length l ≤ fuel → ∃ rest, walk_todo fuel (l ++ l') = l ++ rest.
Proof.
  induction l as [|x l IH]; intros fuel l' Hfuel; simpl.
  - by eexists.
  - destruct fuel as [|fuel]; simpl in *; [lia|].
    destruct (IH fuel (l' ++ node_children x)) as [rest Hrest]; [lia|].
    rewrite <- app_assoc, Hrest. by eexists.
Qed.

Lemma length_le_forest_count l : length l ≤ forest_count l.
Proof.
  induction l as [|x l IH]; [done|].
  change (forest_count (x :: l)) with (node_count x + forest_count l).
  pose proof (node_count_pos x). simpl. lia.
Qed.

(** The root comes first, then its children in order, before any deeper
    node. *)
Lemma walk_top_level tree :
  ∃ rest, walk tree = tree :: node_children tree ++ rest.
Proof.
  unfold walk. rewrite <- forest_count_children. simpl.
  destruct (walk_todo_prefix (node_children tree)
              (forest_count (node_children tree)) [])
    as [rest Hrest]; [apply length_le_forest_count|].
  rewrite app_nil_r in Hrest. rewrite Hrest. by eexists.
Qed.

(** ** Import parser: which modules get an entry, and with which names *)

(** The node imports the module [M]. *)
Definition imports_module (M : string) (n : ast_node) : Prop :=
  match node_kind_of n with
  | KImportFrom (Some m) _ => m = M ∧ M ≠ ""
  | KImport names => M ∈ names
  | _ => False
  end.

(** The names that a [from M import ...] node asks of [M]. *)
Definition from_names (M : string) (n : ast_node) : list string :=
  match node_kind_of n with
  | KImportFrom (Some m) names =>
      if decide (m = M ∧ M ≠ "") then names else []
  | _ => []
  end.

(** The node is a plain [import] that names [M]. *)
Definition plain_import_of (M : string) (n : ast_node) : Prop :=
  match node_kind_of n with
  | KImport names => M ∈ names
  | _ => False
  end.

Lemma dict_keys_set_elem {K V} `{EqDecision K} (k k' : K) (v : V) d :
  k' ∈ dict_keys (dict_set k v d) ↔ k' = k ∨ k' ∈ dict_keys d.
Proof.
  destruct (decide (k ∈ dict_keys d)) as [Hin|Hnin].
  - rewrite dict_keys_set_old by done. split; [by right|]. by intros [->|?].
  - rewrite dict_keys_set_new by done.
    rewrite elem_of_app, list_elem_of_singleton. tauto.
Qed.

Lemma dict_mem_keys {K V} `{EqDecision K} (k : K) (d : list (K * V)) :
  dict_mem k d = true ↔ k ∈ dict_keys d.
Proof.
  unfold dict_mem. destruct (dict_get k d) as [v|] eqn:Hg.
  - split; [intros _; by eapply dict_get_Some_keys | done].
  - apply dict_get_None_keys in Hg. split; [done | by intros ?].
Qed.

Lemma import_aliases_keys (M : string) names : ∀ imports,
  M ∈ dict_keys
        (fold_left (λ d alias_name, dict_set alias_name ["*"] d) names imports)
  ↔ M ∈ dict_keys imports ∨ M ∈ names.
Proof.
  induction names as [|a names IH]; intros imports; simpl.
  - split; [by left | by intros [?|?%elem_of_nil]].
  - rewrite IH, dict_keys_set_elem, elem_of_cons. tauto.
Qed.

Lemma import_aliases_other (M : string) names : ∀ imports,
  M ∉ names →
  dict_get M (fold_left (λ d alias_name, dict_set alias_name ["*"] d) names imports)
  = dict_get M imports.
Proof.
  induction names as [|a names IH]; intros imports Hn; simpl; [done|].
  apply not_elem_of_cons in Hn as [Hne Hn].
  rewrite IH by done. by rewrite dict_get_set_ne.
Qed.

Lemma visit_import_keys M imports n :
  M ∈ dict_keys (visit_import imports n)
  ↔ M ∈ dict_keys imports ∨ imports_module M n.
Proof.
  unfold visit_import, imports_module.
  destruct (node_kind_of n) as [names|[module|] names| | | |]; try tauto.
  - apply import_aliases_keys.
  - destruct (String.eqb module "") eqn:Hm.
    + apply String.eqb_eq in Hm as ->. split; [by left|].
      intros [?|[<- ?]]; done.
    + apply String.eqb_neq in Hm.
      rewrite dict_keys_set_elem.
      destruct (dict_mem module imports) eqn:Hmem.
      * apply dict_mem_keys in Hmem. split.
        -- intros [->|?]; [by left | by left].
        -- intros [?|[<- _]]; [by right | by right].
      * rewrite dict_keys_set_elem. split.
        -- intros [->|[->|?]]; [by right | by right | by left].
        -- intros [?|[<- _]]; [right; by right | by left].
Qed.

Lemma visit_import_from_names M imports n :
  ¬ plain_import_of M n →
  default [] (dict_get M (visit_import imports n))
  = default [] (dict_get M imports) ++ from_names M n.
Proof.
  unfold visit_import, plain_import_of, from_names. intros Hplain.
  destruct (node_kind_of n) as [names|[module|] names| | | |];
    try by rewrite app_nil_r.
  - rewrite import_aliases_other by done. by rewrite app_nil_r.
  - destruct (String.eqb module "") eqn:Hm.
    + apply String.eqb_eq in Hm as ->.
      rewrite decide_False by (by intros [<- ?]). by rewrite app_nil_r.
    + apply String.eqb_neq in Hm.
      destruct (decide (module = M ∧ M ≠ "")) as [[<- _]|Hother].
      * rewrite dict_get_set_eq. simpl. f_equal.
        unfold dict_mem. destruct (dict_get module imports) eqn:Hg; [by rewrite Hg|].
        by rewrite dict_get_set_eq.
      * assert (module ≠ M) by (intros <-; by apply Hother).
        rewrite dict_get_set_ne by done.
        destruct (dict_mem module imports); [by rewrite app_nil_r|].
        rewrite dict_get_set_ne by done. by rewrite app_nil_r.
Qed.

Lemma fold_visit_keys M nodes : ∀ imports,
  M ∈ dict_keys (fold_left visit_import nodes imports)
  ↔ M ∈ dict_keys imports ∨ ∃ n, n ∈ nodes ∧ imports_module M n.
Proof.
  induction nodes as [|n0 nodes IH]; intros imports; simpl.
  - split; [by left | intros [?|(n & ?%elem_of_nil & _)]; done].
  - rewrite IH, visit_import_keys. split.
    + intros [[?|?]|(n & Hn & Hm)].
      * by left.
      * right. exists n0. split; [left|done].
      * right. exists n. split; [by right|done].
    + intros [?|(n & [->|Hn]%elem_of_cons & Hm)].
      * left. by left.
      * left. by right.
      * right. by exists n.
Qed.

Lemma fold_visit_from_names M nodes : ∀ imports,
  Forall (λ n, ¬ plain_import_of M n) nodes →
  default [] (dict_get M (fold_left visit_import nodes imports))
  = default [] (dict_get M imports) ++ flat_map (from_names M) nodes.
Proof.
  induction nodes as [|n nodes IH]; intros imports Hall; simpl.
  - by rewrite app_nil_r.
  - inversion Hall as [|? ? Hn Hrest]; subst.
    rewrite IH by done. rewrite visit_import_from_names by done.
    by rewrite <- app_assoc.
Qed.

Module ExampleDefs.

(** A file whose method [run] stands before the top-level function of
    the same name. *)
Definition shadow_py : Path := ["/"; "p"; "shadow.py"].
Definition top_run : ast_node :=
  Example.stmt (KFunctionDef "run") 4 5
    [Example.leaf 4; Example.stmt KOther 5 5 [Example.leaf 5]].
Definition class_A : ast_node :=
  Example.stmt (KClassDef "A") 1 3
    [Example.stmt (KFunctionDef "run") 2 3
       [Example.stmt KOther 2 2 [Example.leaf 2];
        Example.stmt KOther 3 3 [Example.leaf 3]]].
Definition shadow_tree : ast_node := Example.stmt KOther 1 5 [class_A; top_run].
Definition shadow_file : py_file :=
  PyFile (Example.text ["class A:"; "    def run(self):"; "        return 1";
                        "def run():"; "    return 2"])
         (Some shadow_tree).
Definition shadow_fs : file_system := {[shadow_py := shadow_file]}.

(** A file with two [from b import ...] statements, one of them nested
    in a function. *)
Definition twice_py : Path := ["/"; "p"; "twice.py"].
Definition twice_tree : ast_node :=
  Example.stmt KOther 1 3
    [Example.stmt (KFunctionDef "late") 1 2
       [Example.leaf 1;
        Example.stmt (KImportFrom (Some "b") ["bar"]) 2 2 [Example.leaf 2]];
     Example.stmt (KImportFrom (Some "b") ["foo"]) 3 3 [Example.leaf 3]].
Definition twice_file : py_file :=
  PyFile (Example.text ["def late():"; "    from b import bar"; "from b import foo"])
         (Some twice_tree).
Definition twice_fs : file_system := {[twice_py := twice_file]}.

End ExampleDefs.

(** X1.  For a file that parses, the modules with an entry in the result
    of [parse_imports_with_names] are exactly the modules that some node
    of the tree imports: by [import M], or by [from M import ...] with a
    module name (a relative [from . import x] has none and adds no
    entry). *)
Theorem parse_imports_keys
    (fs : file_system) (file_path : Path) (f : py_file) (tree : ast_node)
    (M : string) :
  fs !! file_path = Some f →
  ast f = Some tree →
  M ∈ dict_keys (parse_imports_with_names fs file_path)
  ↔ ∃ n, in_tree n tree ∧ imports_module M n.
Proof.
  intros Hf Ht. unfold parse_imports_with_names. rewrite Hf, Ht.
  rewrite fold_visit_keys. split.
  - intros [?%elem_of_nil|(n & Hn & Hm)]; [done|].
    exists n. split; [by apply walk_sound | done].
  - intros (n & Hn & Hm). right. exists n. split; [by apply walk_complete | done].
Qed.

Lemma parse_imports_keys_witness :
  "b" ∈ dict_keys (parse_imports_with_names ExampleDefs.twice_fs ExampleDefs.twice_py)
  ∧ "os" ∉ dict_keys (parse_imports_with_names ExampleDefs.twice_fs
                        ExampleDefs.twice_py).
Proof.
  split.
  - apply (parse_imports_keys ExampleDefs.twice_fs ExampleDefs.twice_py
             ExampleDefs.twice_file ExampleDefs.twice_tree "b");
      [vm_compute; reflexivity | reflexivity |].
    eexists. split.
    + eapply in_tree_child; [right; left | apply in_tree_here].
    + split; [reflexivity | discriminate].
  - apply (bool_decide_unpack _). vm_compute. exact I.
Defined.

(** X2.  For a module that the file imports only through [from M import
    ...] statements, the name list is the concatenation of the names of
    those statements in the order of [ast.walk]: breadth first, so a
    statement nested in a function or class comes after every top-level
    one. *)
Theorem parse_imports_from_names
    (fs : file_system) (file_path : Path) (f : py_file) (tree : ast_node)
    (M : string) :
  fs !! file_path = Some f →
  ast f = Some tree →
  (∀ n, in_tree n tree → ¬ plain_import_of M n) →
  (∃ n, in_tree n tree ∧ imports_module M n) →
  dict_get M (parse_imports_with_names fs file_path)
  = Some (flat_map (from_names M) (walk tree)).
Proof.
  intros Hf Ht Hplain Hsome.
  assert (Hkey : M ∈ dict_keys (parse_imports_with_names fs file_path)).
  { destruct Hsome as (n & Hn & Hm).
    unfold parse_imports_with_names. rewrite Hf, Ht.
    apply fold_visit_keys. right. exists n. split; [by apply walk_complete|done]. }
  destruct (dict_get M (parse_imports_with_names fs file_path)) as [l|] eqn:Hg;
    [|by apply dict_get_None_keys in Hg].
  f_equal.
  assert (Hl : default [] (dict_get M (parse_imports_with_names fs file_path)) = l)
    by (by rewrite Hg).
  rewrite <- Hl. unfold parse_imports_with_names. rewrite Hf, Ht.
  rewrite fold_visit_from_names; [done|].
  apply Forall_forall. intros n Hn. by apply Hplain, walk_sound.
Qed.

Lemma parse_imports_from_names_witness :
  dict_get "b" (parse_imports_with_names ExampleDefs.twice_fs ExampleDefs.twice_py)
  = Some (flat_map (from_names "b") (walk ExampleDefs.twice_tree))
  ∧ flat_map (from_names "b") (walk ExampleDefs.twice_tree) = ["foo"; "bar"].
Proof.
  split; [|vm_compute; reflexivity].
  apply (parse_imports_from_names ExampleDefs.twice_fs ExampleDefs.twice_py
           ExampleDefs.twice_file ExampleDefs.twice_tree "b").
  - vm_compute. reflexivity.
  - reflexivity.
  - intros n Hn%walk_complete Hp.
    vm_compute in Hn.
    repeat (apply elem_of_cons in Hn as [->|Hn];
            [unfold plain_import_of in Hp; simpl in Hp; done|]).
    by apply elem_of_nil in Hn.
  - eexists. split.
    + eapply in_tree_child; [right; left | apply in_tree_here].
    + split; [reflexivity | discriminate].
Defined.

(** X3.  For a file that parses, [extract_function_or_class] returns
    [None] exactly when no node of the tree, at any depth, is a function
    or class definition of the requested name. *)
Theorem extract_function_or_class_None_iff
    (fs : file_system) (file_path : Path) (f : py_file) (tree : ast_node)
    (name : string) :
  fs !! file_path = Some f →
  ast f = Some tree →
  extract_function_or_class fs file_path name = None
  ↔ ∀ n, in_tree n tree → is_def_named name n = false.
Proof.
  intros Hf Ht. unfold extract_function_or_class. rewrite Hf, Ht.
  destruct (List.find (is_def_named name) (walk tree)) as [node|] eqn:Hfind.
  - split; [done|]. intros Hnone.
    apply find_some in Hfind as [Hin Hdef].
    apply list_elem_of_In, walk_sound in Hin.
    rewrite (Hnone node Hin) in Hdef. done.
  - split; [|done]. intros _ n Hn%walk_complete.
    apply list_elem_of_In in Hn.
    exact (find_none _ _ Hfind n Hn).
Qed.

Lemma extract_function_or_class_None_iff_witness :
  extract_function_or_class ExampleDefs.shadow_fs ExampleDefs.shadow_py "walk" = None.
Proof.
  apply (extract_function_or_class_None_iff ExampleDefs.shadow_fs
           ExampleDefs.shadow_py ExampleDefs.shadow_file ExampleDefs.shadow_tree
           "walk");
    [vm_compute; reflexivity | reflexivity |].
  intros n Hn%walk_complete. vm_compute in Hn.
  repeat (apply elem_of_cons in Hn as [->|Hn]; [reflexivity|]).
  by apply elem_of_nil in Hn.
Defined.

(** X4.  Among several definitions of one name, the first top-level one
    is extracted, also when a nested definition of that name (a method,
    an inner function) stands earlier in the file: [ast.walk] yields all
    top-level statements before any nested one. *)
Theorem extract_prefers_top_level
    (fs : file_system) (file_path : Path) (f : py_file) (tree node : ast_node)
    (before after : list ast_node) (name : string) :
  fs !! file_path = Some f →
  ast f = Some tree →
  is_def_named name tree = false →
  node_children tree = before ++ node :: after →
  Forall (λ n, is_def_named name n = false) before →
  is_def_named name node = true →
  extract_function_or_class fs file_path name
  = Some (join LF (node_lines (splitlines (content f)) node)).
Proof.
  intros Hf Ht Hroot Hch Hbefore Hnode.
  unfold extract_function_or_class. rewrite Hf, Ht.
  destruct (walk_top_level tree) as [rest ->]. rewrite Hch.
  simpl. rewrite Hroot. rewrite <- app_assoc.
  assert (Hfind : ∀ l, List.find (is_def_named name) (before ++ l)
                       = List.find (is_def_named name) l).
  { intros l. clear Hch.
    induction Hbefore as [|x before Hx _ IH]; simpl; [done|].
    by rewrite Hx. }
  rewrite Hfind. simpl. by rewrite Hnode.
Qed.

Lemma extract_prefers_top_level_witness :
  extract_function_or_class ExampleDefs.shadow_fs ExampleDefs.shadow_py "run"
  = Some (join LF (node_lines (splitlines (content ExampleDefs.shadow_file))
                     ExampleDefs.top_run))
  ∧ join LF (node_lines (splitlines (content ExampleDefs.shadow_file))
               ExampleDefs.top_run)
    = Example.text ["def run():"] +:+ "    return 2".
Proof.
  split; [|vm_compute; reflexivity].
  apply (extract_prefers_top_level ExampleDefs.shadow_fs ExampleDefs.shadow_py
           ExampleDefs.shadow_file ExampleDefs.shadow_tree ExampleDefs.top_run
           [ExampleDefs.class_A] [] "run").
  - vm_compute. reflexivity.
  - reflexivity.
  - reflexivity.
  - reflexivity.
  - repeat constructor.
  - reflexivity.
Defined.

(** ** Module resolver: what it returns exists and lies in the project *)

Lemma str_rev_app s : ∀ acc, String.rev_app s acc = String.rev s +:+ acc.
Proof.
  unfold String.rev. induction s as [|c s IH]; intros acc; [done|].
  change (String.rev_app s (String c acc) = String.rev_app s (String c "") +:+ acc).
  rewrite (IH (String c acc)), (IH (String c "")). by rewrite str_app_assoc.
Qed.

(** The last field of a string that ends in [.py] ends in [.py]. *)
Lemma split_char_py_last s : ∀ cur,
  ∃ fields lastf,
    split_char_aux "/"%char (s +:+ ".py") cur = fields ++ [lastf +:+ ".py"].
Proof.
  induction s as [|c s IH]; intros cur.
  - exists [], (String.rev cur).
    change (split_char_aux "/"%char ("" +:+ ".py") cur)
      with [String.rev_app cur ".py"].
    by rewrite str_rev_app.
  - change (split_char_aux "/"%char (String c s +:+ ".py") cur)
      with (if Ascii.eqb c "/"%char
            then String.rev cur :: split_char_aux "/"%char (s +:+ ".py") ""
            else split_char_aux "/"%char (s +:+ ".py") (String c cur)).
    destruct (Ascii.eqb c "/"%char).
    + destruct (IH "") as (fields & lastf & ->).
      by exists (String.rev cur :: fields), lastf.
    + apply IH.
Qed.

Lemma py_suffix_is_part (s : string) : s +:+ ".py" ≠ "" ∧ s +:+ ".py" ≠ ".".
Proof.
  split.
  - by destruct s.
  - destruct s as [|c [|c' s]]; [done| |]; intros [=].
Qed.

Lemma parse_rel_path_py_nonempty s : parse_rel_path (s +:+ ".py") ≠ [].
Proof.
  unfold parse_rel_path, split_char.
  destruct (split_char_py_last s "") as (fields & lastf & ->).
  rewrite filter_app, filter_cons_True by apply py_suffix_is_part.
  by destruct (filter _ fields).
Qed.

(** Whether [c] occurs in [s]. *)
Fixpoint str_mem (c : ascii) (s : string) : bool :=
  match s with
  | EmptyString => false
  | String c' s' => Ascii.eqb c' c || str_mem c s'
  end.

(** An import name that [project_dir / path] keeps below [project_dir]:
    it starts neither with a dot, which [replace] turns into a slash, nor
    with a slash.  The [module] of an [ast.ImportFrom] and the names of
    an [ast.Import] are dotted names of this kind. *)
Definition is_relative_name (import_name : string) : bool :=
  match import_name with
  | String c _ => negb (Ascii.eqb c "."%char) && negb (Ascii.eqb c "/"%char)
  | EmptyString => true
  end.

Lemma str_mem_rev_app c s : ∀ acc,
  str_mem c (String.rev_app s acc) = str_mem c s || str_mem c acc.
Proof.
  induction s as [|c' s IH]; intros acc; [done|].
  change (String.rev_app (String c' s) acc)
    with (String.rev_app s (String c' acc)).
  rewrite IH. simpl. destruct (Ascii.eqb c' c), (str_mem c s); done.
Qed.

Lemma split_char_aux_no_sep sep s : ∀ cur,
  str_mem sep cur = false →
  Forall (λ part, str_mem sep part = false) (split_char_aux sep s cur).
Proof.
  assert (Hrev : ∀ cur, str_mem sep cur = false →
                        str_mem sep (String.rev cur) = false).
  { intros cur Hcur. unfold String.rev. rewrite str_mem_rev_app, Hcur. done. }
  induction s as [|c s IH]; intros cur Hcur; simpl.
  - constructor; [by apply Hrev | constructor].
  - destruct (Ascii.eqb c sep) eqn:Hc.
    + constructor; [by apply Hrev | by apply IH].
    + apply IH. simpl. by rewrite Hc, Hcur.
Qed.

Lemma parse_rel_path_no_root s :
  Forall (λ part, is_root part = false) (parse_rel_path s).
Proof.
  apply Forall_forall. intros part Hpart. unfold parse_rel_path in Hpart.
  apply list_elem_of_filter in Hpart as [_ Hpart].
  pose proof (split_char_aux_no_sep "/"%char s "" eq_refl) as Hno.
  rewrite Forall_forall in Hno. specialize (Hno part Hpart).
  unfold is_root.
  destruct (String.eqb_spec part "/") as [->|_]; [done|].
  by destruct (String.eqb_spec part "//") as [->|_].
Qed.

Lemma relative_to_app (base rel : list string) :
  Forall (λ part, is_root part = false) rel →
  relative_to (base ++ rel) base = Some rel.
Proof.
  intros Hrel. destruct base as [|b base].
  - destruct Hrel as [|x rel Hx _]; [done|]. simpl. by rewrite Hx.
  - change (strip_parts ((b :: base) ++ rel) (b :: base) = Some rel).
    induction (b :: base) as [|y l IH]; simpl; [by destruct rel|].
    by rewrite decide_True.
Qed.

Lemma relative_name_path import_name :
  is_relative_name import_name = true →
  is_absolute_string (replace_char "."%char "/"%char import_name) = false ∧
  is_absolute_string (replace_char "."%char "/"%char import_name +:+ ".py")
  = false.
Proof.
  destruct import_name as [|c s]; [done|]. simpl.
  destruct (Ascii.eqb_spec c "."%char) as [->|_]; [done|].
  destruct (Ascii.eqb_spec c "/"%char) as [->|_]; done.
Qed.

Lemma resolve_import_to_file_Some fs import_name project_dir p :
  is_relative_name import_name = true →
  resolve_import_to_file fs import_name project_dir = Some p →
  is_Some (fs !! p) ∧
  ∃ rel, rel ≠ [] ∧ Forall (λ part, is_root part = false) rel ∧
         p = project_dir ++ rel.
Proof.
  intros [Hdir Hpy]%relative_name_path.
  unfold resolve_import_to_file, path_exists, path_join.
  rewrite Hdir, Hpy. change (is_absolute_string "__init__.py") with false.
  cbv iota.
  case_bool_decide as Hfile.
  { intros [= <-]. split; [done|]. eexists. split; [|split; [|done]].
    - apply parse_rel_path_py_nonempty.
    - apply parse_rel_path_no_root. }
  case_bool_decide as Hinit; [|done].
  intros [= <-]. split; [done|].
  exists (parse_rel_path (replace_char "."%char "/"%char import_name)
          ++ ["__init__.py"]).
  split; [by intros [_ [=]]%app_eq_nil |]. split.
  - apply Forall_app. split; [apply parse_rel_path_no_root|].
    by repeat constructor.
  - change (parse_rel_path "__init__.py") with ["__init__.py"].
    by rewrite <- app_assoc.
Qed.

(** X5.  For an import name that starts neither with a dot nor with a
    slash, whatever [resolve_import_to_file] returns is a file that exists
    and lies strictly below the project directory, so [relative_to] the
    project directory succeeds on it with a non-empty result; and the
    module file [<path>.py] is preferred to the package file
    [<path>/__init__.py]. *)
Theorem resolved_file_exists_in_project
    (fs : file_system) (import_name : string) (project_dir p : Path) :
  is_relative_name import_name = true →
  resolve_import_to_file fs import_name project_dir = Some p →
  is_Some (fs !! p) ∧
  (∃ rel, rel ≠ [] ∧ p = project_dir ++ rel ∧
          relative_to p project_dir = Some rel) ∧
  (is_Some (fs !! path_join project_dir
                     (replace_char "."%char "/"%char import_name +:+ ".py")) →
   p = path_join project_dir
         (replace_char "."%char "/"%char import_name +:+ ".py")).
Proof.
  intros Hname Hres.
  destruct (resolve_import_to_file_Some _ _ _ _ Hname Hres)
    as (Hex & rel & Hne & Hparts & ->).
  split; [done|]. split.
  - exists rel. split; [done|]. split; [done | by apply relative_to_app].
  - intros Hpy. unfold resolve_import_to_file, path_exists in Hres.
    rewrite bool_decide_eq_true_2 in Hres by done. by injection Hres.
Qed.

Lemma resolved_file_exists_in_project_witness :
  is_Some (Example.fs1 !! Example.b_py) ∧
  ∃ rel, rel ≠ [] ∧ Example.b_py = Example.project_dir ++ rel ∧
         relative_to Example.b_py Example.project_dir = Some rel.
Proof.
  destruct (resolved_file_exists_in_project Example.fs1 "b" Example.project_dir
              Example.b_py) as (Hex & Hrel & _).
  - reflexivity.
  - vm_compute. reflexivity.
  - by split.
Defined.

(** ** [build_tree_structure]: failure and repeated files *)

Lemma build_tree_from_Raise project_dir files : ∀ tree e,
  build_tree_from files project_dir tree = Raise e →
  e = ValueError ∧ ∃ f, f ∈ files ∧ relative_to f project_dir = None.
Proof.
  induction files as [|file files IH]; intros tree e; simpl; [done|].
  destruct (relative_to file project_dir) as [rel|] eqn:Hrel.
  - intros Hb. destruct (IH _ _ Hb) as (-> & f & Hf & Hnone).
    split; [done|]. exists f. split; [by right | done].
  - intros [= <-]. split; [done|]. exists file. split; [left | done].
Qed.

(** X6.  [build_tree_structure] raises exactly when some file of the
    list is not under the project directory, and then the exception is the
    [ValueError] of [relative_to]; nothing but the paths decides, the
    files need not exist. *)
Theorem build_tree_structure_raises_iff
    (files : list Path) (project_dir : Path) :
  (∃ e, build_tree_structure files project_dir = Raise e)
  ↔ ∃ f, f ∈ files ∧ relative_to f project_dir = None.
Proof.
  unfold build_tree_structure. split.
  - intros [e He]. by destruct (build_tree_from_Raise _ _ _ _ He) as (_ & Hf).
  - intros (f & Hf & Hnone).
    destruct (build_tree_from files project_dir []) as [tree|e] eqn:Hb;
      [|by exists e].
    exfalso. revert Hb. generalize (@nil (string * tree_node)).
    induction files as [|file files IH]; intros t; simpl.
    + by apply elem_of_nil in Hf.
    + apply elem_of_cons in Hf as [<-|Hf].
      * by rewrite Hnone.
      * destruct (relative_to file project_dir); [by apply IH | done].
Qed.

Lemma dict_set_same {K V} `{EqDecision K} (k : K) (v : V) d :
  dict_get k d = Some v → dict_set k v d = d.
Proof.
  induction d as [|[k0 v0] d IH]; simpl; [done|].
  destruct (decide (k0 = k)) as [->|Hne].
  - by intros [= ->].
  - intros Hg. by rewrite IH.
Qed.

(** The tree holds the chain of entries that inserting [parts] makes. *)
Fixpoint has_path (parts : list string) (t : list (string * tree_node)) : Prop :=
  match parts with
  | [] => True
  | part :: rest =>
      ∃ b ch, dict_get part t = Some (TreeNode b ch) ∧ has_path rest ch
  end.

Lemma insert_parts_has_path parts : ∀ t, has_path parts (insert_parts parts t).
Proof.
  induction parts as [|part rest IH]; intros t; [done|].
  cbn [insert_parts has_path].
  set (current1 := if dict_mem part t then t
                   else dict_set part (TreeNode (bool_decide (rest = [])) []) t).
  assert (Hsome : is_Some (dict_get part current1)).
  { unfold current1, dict_mem. destruct (dict_get part t) eqn:Hg.
    - rewrite Hg. by eexists.
    - rewrite dict_get_set_eq. by eexists. }
  destruct Hsome as [[b ch] Hg]. rewrite Hg.
  exists b, (insert_parts rest ch). split; [apply dict_get_set_eq | apply IH].
Qed.

Lemma has_path_insert_parts parts' : ∀ parts t,
  has_path parts t → has_path parts (insert_parts parts' t).
Proof.
  induction parts' as [|part' rest' IH]; intros parts t Hpath; [done|].
  destruct parts as [|part rest]; [done|].
  destruct Hpath as (b & ch & Hg & Hrest).
  cbn [insert_parts has_path].
  destruct (decide (part' = part)) as [->|Hne].
  - unfold dict_mem. rewrite Hg. cbn [is_Some_proj bool_decide]. rewrite Hg.
    exists b, (insert_parts rest' ch).
    split; [apply dict_get_set_eq | by apply IH].
  - set (current1 := if dict_mem part' t then t
                     else dict_set part' (TreeNode (bool_decide (rest' = [])) []) t).
    assert (Hg1 : dict_get part current1 = Some (TreeNode b ch)).
    { unfold current1. destruct (dict_mem part' t); [done|].
      by rewrite dict_get_set_ne. }
    exists b, ch. split; [|done].
    destruct (dict_get part' current1) as [[b' ch']|]; [|done].
    by rewrite dict_get_set_ne.
Qed.

Lemma has_path_insert_parts_id parts : ∀ t,
  has_path parts t → insert_parts parts t = t.
Proof.
  induction parts as [|part rest IH]; intros t Hpath; [done|].
  destruct Hpath as (b & ch & Hg & Hrest).
  cbn [insert_parts]. unfold dict_mem. rewrite Hg.
  cbn [is_Some_proj bool_decide]. rewrite Hg.
  rewrite (IH ch Hrest). by apply dict_set_same.
Qed.

Lemma build_tree_from_app project_dir files1 files2 : ∀ tree,
  build_tree_from (files1 ++ files2) project_dir tree
  = match build_tree_from files1 project_dir tree with
    | Ok tree1 => build_tree_from files2 project_dir tree1
    | Raise e => Raise e
    end.
Proof.
  induction files1 as [|file files1 IH]; intros tree; simpl; [done|].
  destruct (relative_to file project_dir); [apply IH | done].
Qed.

Lemma build_tree_from_has_path project_dir files : ∀ tree tree' parts,
  build_tree_from files project_dir tree = Ok tree' →
  has_path parts tree → has_path parts tree'.
Proof.
  induction files as [|file files IH]; intros tree tree' parts; simpl.
  - by intros [= <-].
  - destruct (relative_to file project_dir) as [rel|]; [|done].
    intros Hb Hpath. apply (IH _ _ _ Hb). by apply has_path_insert_parts.
Qed.

Lemma build_tree_from_elem project_dir files f : ∀ tree tree',
  f ∈ files →
  build_tree_from files project_dir tree = Ok tree' →
  ∃ parts, relative_to f project_dir = Some parts ∧ has_path parts tree'.
Proof.
  induction files as [|file files IH]; intros tree tree' Hf; simpl.
  - by apply elem_of_nil in Hf.
  - destruct (relative_to file project_dir) as [rel|] eqn:Hrel; [|done].
    intros Hb. apply elem_of_cons in Hf as [->|Hf].
    + exists rel. split; [done|].
      apply (build_tree_from_has_path _ _ _ _ _ Hb), insert_parts_has_path.
    + by apply (IH _ _ Hf Hb).
Qed.

(** X7.  A file that occurs again later in the list given to
    [build_tree_structure] changes nothing: the result, tree or
    exception, is that for the list without the later occurrence,
    whatever files stand in between. *)
Theorem build_tree_structure_repeated_file
    (before after : list Path) (f : Path) (project_dir : Path) :
  f ∈ before →
  build_tree_structure (before ++ f :: after) project_dir
  = build_tree_structure (before ++ after) project_dir.
Proof.
  intros Hf. unfold build_tree_structure. rewrite !build_tree_from_app.
  destruct (build_tree_from before project_dir []) as [tree|e] eqn:Hb; [|done].
  destruct (build_tree_from_elem _ _ _ _ _ Hf Hb) as (parts & Hrel & Hpath).
  simpl. rewrite Hrel. by rewrite (has_path_insert_parts_id parts tree Hpath).
Qed.

Lemma build_tree_structure_repeated_file_witness :
  build_tree_structure
    [["/"; "p"; "a"; "x.py"]; ["/"; "p"; "b.py"]; ["/"; "p"; "a"; "x.py"];
     ["/"; "p"; "a"; "y.py"]] ["/"; "p"]
  = build_tree_structure
      [["/"; "p"; "a"; "x.py"]; ["/"; "p"; "b.py"]; ["/"; "p"; "a"; "y.py"]]
      ["/"; "p"]
  ∧ build_tree_structure
      [["/"; "p"; "a"; "x.py"]; ["/"; "p"; "b.py"]; ["/"; "p"; "a"; "y.py"]]
      ["/"; "p"]
    = Ok [("a", TreeNode false
                  [("x.py", TreeNode true []); ("y.py", TreeNode true [])]);
          ("b.py", TreeNode true [])].
Proof.
  split; [|vm_compute; reflexivity].
  apply (build_tree_structure_repeated_file
           [["/"; "p"; "a"; "x.py"]; ["/"; "p"; "b.py"]]
           [["/"; "p"; "a"; "y.py"]] ["/"; "p"; "a"; "x.py"] ["/"; "p"]).
  apply (bool_decide_unpack _). vm_compute. exact I.
Defined.

(** ** The traversal: what it never does *)

Section traversal_bounds.
Context (fs : file_system) (project_dir : Path) (exclude_patterns : list string).

(** Every entry belongs to a reachable file, and every queued file is
    the entry file or is imported by a reachable file. *)
Definition sound_inv (entry_file : Path) (s : extract_state) : Prop :=
  (∀ p, p ∈ dict_keys (extracted_code s) →
        reachable_file fs project_dir exclude_patterns entry_file p) ∧
  (∀ p, p ∈ (files_to_process s).*1 →
        p = entry_file ∨
        ∃ A, reachable_file fs project_dir exclude_patterns entry_file A ∧
             import_edge fs project_dir A p) ∧
  (∀ p, p ∈ opened s → p ∈ dict_keys (extracted_code s)).

Lemma opens_of_elem p cur names : p ∈ opens_of cur names → p = cur.
Proof.
  unfold opens_of. intros [Hp|Hp]%elem_of_app.
  - apply elem_of_cons in Hp as [->|Hp]; [done|].
    by apply list_elem_of_singleton in Hp.
  - case_bool_decide; [by apply list_elem_of_singleton in Hp|].
    by apply list_elem_of_fmap in Hp as (? & -> & _).
Qed.

Lemma extract_step_sound entry_file cur names rest s s' :
  files_to_process s = (cur, names) :: rest →
  sound_inv entry_file s →
  extract_step fs project_dir exclude_patterns cur names rest s = Ok s' →
  sound_inv entry_file s'.
Proof.
  intros Hq (Hkeys & Hqueue & Hopen) Hstep.
  rewrite Hq in Hqueue. simpl in Hqueue.
  unfold extract_step in Hstep.
  destruct (decide (cur ∈ processed s)) as [Hold|Hnew].
  { injection Hstep as <-. split_and!; simpl; [done| |done].
    intros p Hp. apply Hqueue. by right. }
  destruct (is_excluded exclude_patterns cur) eqn:Hex.
  { destruct (relative_to cur project_dir); [|done].
    injection Hstep as <-. split_and!; simpl; [done| |done].
    intros p Hp. apply Hqueue. by right. }
  destruct (relative_to cur project_dir); [|done].
  destruct (file_code fs cur names) as [code|]; [|done].
  injection Hstep as <-.
  assert (Hcur : reachable_file fs project_dir exclude_patterns entry_file cur).
  { destruct (Hqueue cur) as [->|(A & HA & HAB)]; [left| |].
    - by apply reachable_entry.
    - by eapply reachable_import. }
  assert (Hnewkeys : ∀ p, p ∈ dict_keys (dict_set cur code (extracted_code s)) ↔
                          p = cur ∨ p ∈ dict_keys (extracted_code s))
    by (intros p; apply dict_keys_set_elem).
  split_and!; simpl.
  - intros p [->|Hp]%Hnewkeys; [done | by apply Hkeys].
  - intros p. rewrite enqueue_imports_app, fmap_app.
    intros [Hp|Hp]%elem_of_app; [apply Hqueue; by right|].
    apply list_elem_of_fmap in Hp as ([p' names'] & -> & Hin).
    destruct (enqueue_imports_elem _ _ _ _ _ _ Hin)
      as (module & Hm & Hskip & Hres & _).
    right. exists cur. split; [done|]. by exists module, names'.
  - intros p [Hp|Hp]%elem_of_app; apply Hnewkeys.
    + right. by apply Hopen.
    + left. by eapply opens_of_elem.
Qed.

Lemma extract_loop_sound entry_file fuel : ∀ s final,
  sound_inv entry_file s →
  extract_loop fs project_dir exclude_patterns fuel s = Some (Ok final) →
  sound_inv entry_file final.
Proof.
  induction fuel as [|fuel IH]; intros s final Hinv Hloop; simpl in Hloop.
  - destruct (files_to_process s) as [|[cur names] rest]; [|done].
    by injection Hloop as <-.
  - destruct (files_to_process s) as [|[cur names] rest] eqn:Hq.
    { by injection Hloop as <-. }
    destruct (extract_step fs project_dir exclude_patterns cur names rest s)
      as [s'|e] eqn:Hstep; [|done].
    apply (IH s'); [|done]. by eapply extract_step_sound.
Qed.

Lemma sound_inv_init entry_file : sound_inv entry_file (extract_init entry_file).
Proof.
  split_and!; simpl.
  - by intros p ?%elem_of_nil.
  - intros p ->%list_elem_of_singleton. by left.
  - by intros p ?%elem_of_nil.
Qed.

End traversal_bounds.

(** X8.  Only reachable files get an entry: every key of [extracted_code]
    is the entry file or is reached from it along import edges whose
    module is outside the skip list and resolves in the project, between
    files that are not excluded.  A file that is imported only under a
    skip-list name, or only by excluded files, is never visited. *)
Theorem extracted_files_are_reachable
    (fs : file_system) (project_dir entry_file : Path)
    (exclude_patterns : list string) (final : extract_state) (p : Path) :
  extraction_phase fs project_dir entry_file exclude_patterns = Some (Ok final) →
  p ∈ dict_keys (extracted_code final) →
  reachable_file fs project_dir exclude_patterns entry_file p.
Proof.
  intros Hphase Hp.
  destruct (extract_loop_sound fs project_dir exclude_patterns entry_file _ _ _
              (sound_inv_init fs project_dir exclude_patterns entry_file) Hphase)
    as (Hkeys & _ & _).
  by apply Hkeys.
Qed.

Lemma extracted_files_are_reachable_witness :
  ∃ final,
    extraction_phase Example.fs1 Example.project_dir Example.main_py []
      = Some (Ok final) ∧
    reachable_file Example.fs1 Example.project_dir [] Example.main_py Example.c_py.
Proof.
  eexists. split; [vm_compute; reflexivity|].
  eapply (extracted_files_are_reachable Example.fs1 Example.project_dir
            Example.main_py []).
  - vm_compute. reflexivity.
  - apply (bool_decide_unpack _). vm_compute. exact I.
Defined.

Lemma discover_loop_opened fs project_dir exclude_patterns fuel : ∀ d d',
  d_opened d = discovered_files d →
  discover_loop fs project_dir exclude_patterns fuel d = Some d' →
  d_opened d' = discovered_files d'.
Proof.
  induction fuel as [|fuel IH]; intros d d' Heq Hloop; simpl in Hloop.
  - destruct (d_files_to_process d) as [|[cur names] rest]; [|done].
    by injection Hloop as <-.
  - destruct (d_files_to_process d) as [|[cur names] rest].
    { by injection Hloop as <-. }
    apply IH in Hloop; [done|].
    unfold discover_step. destruct (decide (cur ∈ d_processed d)); [done|].
    destruct (is_excluded exclude_patterns cur); simpl; [done|]. by rewrite Heq.
Qed.

(** X9.  Exclusion: in a call that completes, a file whose path contains
    an exclude pattern is never opened for reading, in either pass, and
    has no entry in [extracted_code], even when reachable files import
    it. *)
Theorem excluded_file_never_read
    (fs : file_system) (project_dir entry_file : Path)
    (exclude_patterns : option (list string)) (out : list string)
    (reads : list Path) :
  extract_used_code fs project_dir entry_file exclude_patterns
    = Some (Completed out reads) →
  ∃ final,
    extraction_phase fs project_dir entry_file (default [] exclude_patterns)
      = Some (Ok final) ∧
    ∀ p, is_excluded (default [] exclude_patterns) p = true →
         (p ∉ reads) ∧ p ∉ dict_keys (extracted_code final).
Proof.
  intros Hrun.
  destruct (extract_used_code_completed _ _ _ _ _ _ Hrun)
    as (d & final & tree & Hd & _ & Hphase & Htree & Hout).
  exists final. split; [done|].
  set (excl := default [] exclude_patterns) in *.
  destruct (extract_loop_inv fs project_dir excl entry_file _ _ _
              (walker_inv_init fs project_dir excl entry_file) Hphase)
    as [(_ & Hkeys & _) _].
  destruct (extract_loop_sound fs project_dir excl entry_file _ _ _
              (sound_inv_init fs project_dir excl entry_file) Hphase)
    as (_ & _ & Hopen).
  assert (Hdisc : d_opened d = dict_keys (extracted_code final)).
  { destruct (passes_same_files fs project_dir entry_file excl final Hphase)
      as (d' & Hd' & <-).
    assert (d' = d) as -> by congruence.
    apply (discover_loop_opened fs project_dir excl
             (loop_fuel fs [(entry_file, ["*"])] ∅) (discover_init entry_file) d);
      [reflexivity | exact Hd]. }
  assert (Hreads : reads = d_opened d ++ opened final).
  { unfold write_output in Hout. rewrite Htree in Hout.
    destruct (write_sections project_dir (extracted_code final)) as [body [e|]];
      [done|]. by injection Hout. }
  assert (Hnokey : ∀ p, is_excluded excl p = true →
                        p ∉ dict_keys (extracted_code final)).
  { intros p Hex [_ Hp]%Hkeys. congruence. }
  intros p Hex. split; [|by apply Hnokey].
  rewrite Hreads, Hdisc. intros [Hp|Hp]%elem_of_app.
  - by apply (Hnokey p Hex).
  - by apply (Hnokey p Hex), Hopen.
Qed.

Module ExampleExcluded.

(** [main.py] imports [c], and the pattern [c.py] excludes it. *)
Definition patterns : option (list string) := Some ["c.py"].

End ExampleExcluded.

Lemma excluded_file_never_read_witness :
  ∃ out reads final,
    extract_used_code Example.fs1 Example.project_dir Example.main_py
      ExampleExcluded.patterns = Some (Completed out reads) ∧
    extraction_phase Example.fs1 Example.project_dir Example.main_py ["c.py"]
      = Some (Ok final) ∧
    (Example.c_py ∉ reads) ∧ Example.c_py ∉ dict_keys (extracted_code final).
Proof.
  eexists _, _.
  assert (Hrun : extract_used_code Example.fs1 Example.project_dir
                   Example.main_py ExampleExcluded.patterns
                 = Some (Completed _ _)) by (vm_compute; reflexivity).
  destruct (excluded_file_never_read Example.fs1 Example.project_dir
              Example.main_py ExampleExcluded.patterns _ _ Hrun)
    as (final & Hphase & Hex).
  exists final. split; [exact Hrun|]. split; [exact Hphase|].
  apply Hex. vm_compute. reflexivity.
Defined.

Module ExampleCycle.

(** Two files that import each other. *)
Definition a_py : Path := ["/"; "p"; "a.py"].
Definition b_py : Path := ["/"; "p"; "b.py"].
Definition a_file : py_file :=
  PyFile (Example.text ["import b"])
    (Some (Example.stmt KOther 1 1
             [Example.stmt (KImport ["b"]) 1 1 [Example.leaf 1]])).
Definition b_file : py_file :=
  PyFile (Example.text ["import a"])
    (Some (Example.stmt KOther 1 1
             [Example.stmt (KImport ["a"]) 1 1 [Example.leaf 1]])).
Definition fs : file_system := <[a_py := a_file]> (<[b_py := b_file]> ∅).

End ExampleCycle.

(** X11.  Both walker loops terminate from every state, import cycles
    included: the number of iterations is at most the length of the queue
    plus the number of import entries of the files not yet processed. *)
Theorem walker_loops_terminate
    (fs : file_system) (project_dir : Path) (exclude_patterns : list string)
    (fuel : nat) (d : discover_state) (s : extract_state) :
  loop_fuel fs (d_files_to_process d) (d_processed d) ≤ fuel →
  loop_fuel fs (files_to_process s) (processed s) ≤ fuel →
  (∃ d', discover_loop fs project_dir exclude_patterns fuel d = Some d' ∧
         d_files_to_process d' = []) ∧
  (∃ r, extract_loop fs project_dir exclude_patterns fuel s = Some r ∧
        match r with Ok s' => files_to_process s' = [] | Raise _ => True end).
Proof.
  intros Hd Hs. split.
  - by apply discover_loop_total.
  - by apply extract_loop_total.
Qed.

Lemma walker_loops_terminate_witness :
  (∃ d', discover_loop ExampleCycle.fs Example.project_dir [] 3
           (discover_init ExampleCycle.a_py) = Some d' ∧
         d_files_to_process d' = []) ∧
  (∃ r, extract_loop ExampleCycle.fs Example.project_dir [] 3
          (extract_init ExampleCycle.a_py) = Some r ∧
        match r with Ok s' => files_to_process s' = [] | Raise _ => True end).
Proof.
  apply (walker_loops_terminate ExampleCycle.fs Example.project_dir [] 3
           (discover_init ExampleCycle.a_py) (extract_init ExampleCycle.a_py)).
  - vm_compute. lia.
  - vm_compute. lia.
Defined.

Lemma requested_bodies_none fs X names :
  (∀ name, extract_function_or_class fs X name = None) →
  requested_bodies fs X names = [].
Proof.
  intros Hnone. unfold requested_bodies.
  induction names as [|name names IH]; simpl; [done|].
  rewrite IH, Hnone. by destruct (String.eqb name "*").
Qed.

(** X12.  A file that does not parse is still handled: it contributes no
    imports, its prologue is empty and no name is found in it; requested
    as a whole it is stored with its raw text, requested by names it is
    stored as the empty string. *)
Theorem unparseable_file_is_kept
    (fs : file_system) (X : Path) (f : py_file) :
  fs !! X = Some f →
  ast f = None →
  parse_imports_with_names fs X = [] ∧
  get_global_variables fs X = "" ∧
  (∀ name, extract_function_or_class fs X name = None) ∧
  (∀ names, file_code fs X names
            = Ok (if bool_decide ("*" ∈ names) then content f else "")).
Proof.
  intros Hf Hast.
  assert (Hparse : parse_imports_with_names fs X = [])
    by (unfold parse_imports_with_names; by rewrite Hf, Hast).
  assert (Hglob : get_global_variables fs X = "")
    by (unfold get_global_variables; by rewrite Hf, Hast).
  assert (Hnone : ∀ name, extract_function_or_class fs X name = None)
    by (intros name; unfold extract_function_or_class; by rewrite Hf, Hast).
  split_and!; try done.
  intros names. unfold file_code. rewrite Hglob, Hf. simpl.
  case_bool_decide; [done|].
  by rewrite extract_names_bodies, requested_bodies_none.
Qed.

Module ExampleBroken.

(** A file whose text is not Python. *)
Definition broken_py : Path := ["/"; "p"; "broken.py"].
Definition broken_file : py_file := PyFile (Example.text ["def ("]) None.
Definition fs : file_system := {[broken_py := broken_file]}.

End ExampleBroken.

Lemma unparseable_file_is_kept_witness :
  file_code ExampleBroken.fs ExampleBroken.broken_py ["foo"] = Ok "" ∧
  file_code ExampleBroken.fs ExampleBroken.broken_py ["*"]
  = Ok (content ExampleBroken.broken_file).
Proof.
  destruct (unparseable_file_is_kept ExampleBroken.fs ExampleBroken.broken_py
              ExampleBroken.broken_file) as (_ & _ & _ & Hcode).
  - vm_compute. reflexivity.
  - reflexivity.
  - split; [apply (Hcode ["foo"]) | apply (Hcode ["*"])].
Defined.

(** X13.  When the extraction phase completes and the entry file is not
    excluded, the first entry of [extracted_code], and so the first code
    section of the output, is the entry file with its entire raw
    content. *)
Theorem entry_file_first_and_whole
    (fs : file_system) (project_dir entry_file : Path)
    (exclude_patterns : list string) (final : extract_state) :
  extraction_phase fs project_dir entry_file exclude_patterns = Some (Ok final) →
  is_excluded exclude_patterns entry_file = false →
  ∃ f rest,
    fs !! entry_file = Some f ∧
    extracted_code final = (entry_file, content f) :: rest.
Proof.
  intros Hphase Hex.
  pose proof (extract_loop_keys_order fs project_dir exclude_patterns entry_file
                _ _ _ (walker_inv_init fs project_dir exclude_patterns entry_file)
                Hphase) as Hkeys.
  destruct (first_request_wins fs project_dir exclude_patterns
              (loop_fuel fs [(entry_file, ["*"])] ∅) (extract_init entry_file)
              final entry_file ["*"] [] [] eq_refl (not_elem_of_nil _)
              (not_elem_of_empty _) Hex Hphase) as (code & Hcode & Hget).
  unfold file_code in Hcode. rewrite bool_decide_eq_true_2 in Hcode by left.
  destruct (fs !! entry_file) as [f|]; [|done]. injection Hcode as <-.
  exists f. unfold loop_fuel in Hkeys. simpl in Hkeys.
  rewrite decide_False in Hkeys by apply not_elem_of_empty.
  rewrite Hex in Hkeys. simpl in Hkeys.
  destruct (extracted_code final) as [|[k v] rest]; [done|].
  simpl in Hkeys. injection Hkeys as -> _.
  simpl in Hget. rewrite decide_True in Hget by done. injection Hget as ->.
  by exists rest.
Qed.

Lemma entry_file_first_and_whole_witness :
  ∃ final f rest,
    extraction_phase Example.fs2 Example.project_dir Example.main_py []
      = Some (Ok final) ∧
    Example.fs2 !! Example.main_py = Some f ∧
    extracted_code final = (Example.main_py, content f) :: rest.
Proof.
  eexists.
  assert (Hphase : extraction_phase Example.fs2 Example.project_dir
                     Example.main_py [] = Some (Ok _)) by (vm_compute; reflexivity).
  destruct (entry_file_first_and_whole Example.fs2 Example.project_dir
              Example.main_py [] _ Hphase eq_refl) as (f & rest & Hf & Hcode).
  exists f, rest. split; [exact Hphase|]. by split.
Defined.

(** X14.  The first pass does not notice a missing entry file: for an
    entry file that does not exist and is not excluded, [discover_files]
    returns the list with just that path (the failing [open] is caught in
    the import parser), while the extraction phase raises on it. *)
Theorem discover_files_missing_entry
    (fs : file_system) (project_dir entry_file : Path)
    (exclude_patterns : list string) :
  fs !! entry_file = None →
  is_excluded exclude_patterns entry_file = false →
  discover_files fs project_dir entry_file exclude_patterns = Some [entry_file] ∧
  ∃ e, extraction_phase fs project_dir entry_file exclude_patterns
       = Some (Raise e).
Proof.
  intros Hmissing Hex. split.
  - unfold discover_files, discover_run, loop_fuel. simpl.
    unfold discover_step. simpl.
    rewrite decide_False by apply not_elem_of_empty. rewrite Hex.
    unfold parse_imports_with_names. rewrite Hmissing. simpl.
    by destruct (pending_imports fs ∅).
  - unfold extraction_phase, loop_fuel. simpl. unfold extract_step. simpl.
    rewrite decide_False by apply not_elem_of_empty. rewrite Hex.
    destruct (relative_to entry_file project_dir); [|by eexists].
    unfold file_code. rewrite bool_decide_eq_true_2 by left.
    rewrite Hmissing. by eexists.
Qed.

Lemma discover_files_missing_entry_witness :
  discover_files Example.fs1 Example.project_dir ["/"; "p"; "absent.py"] []
  = Some [["/"; "p"; "absent.py"]].
Proof.
  apply (discover_files_missing_entry Example.fs1 Example.project_dir
           ["/"; "p"; "absent.py"] []).
  - vm_compute. reflexivity.
  - reflexivity.
Defined.

(** ** The printed tree against the written tree *)

(** No directory below this node, the node included, has more than
    [max_files_per_dir] children. *)
Fixpoint fits (max_files_per_dir : nat) (d : tree_node) : bool :=
  match d with
  | TreeNode b children =>
      b || (bool_decide (length children ≤ max_files_per_dir)
            && forallb (λ nd, fits max_files_per_dir nd.2) children)
  end.

Definition add_LF (line : string) : string := line +:+ LF.

Lemma print_level_eq_write_level (max_files_per_dir : positive)
    (t : list (string * tree_node)) :
  (∀ nd, nd ∈ t → tn_is_file nd.2 = false →
         length (tn_children nd.2) ≤ Pos.to_nat max_files_per_dir ∧
         ∀ prefix, map add_LF (print_tree (tn_children nd.2) prefix
                                 max_files_per_dir)
                   = write_tree (tn_children nd.2) prefix) →
  ∀ prefix, map add_LF (print_tree t prefix max_files_per_dir)
            = write_tree t prefix.
Proof.
  intros Hsub prefix. rewrite print_tree_unfold, write_tree_unfold.
  rewrite concat_map. f_equal.
  change (map (map add_LF)) with (fmap (M := list) (map add_LF)).
  rewrite fmap_imap. apply imap_ext. intros idx [name d] Hidx. simpl.
  assert (Hin : (name, d) ∈ t).
  { rewrite <- (sorted_items_perm t). by eapply list_elem_of_lookup_2. }
  unfold print_entry, write_entry, add_LF. simpl.
  destruct (tn_is_file d) eqn:Hfile; simpl.
  - by rewrite !str_app_assoc.
  - destruct (Hsub _ Hin Hfile) as [Hfew Heq]. simpl in Hfew, Heq.
    rewrite (bool_decide_eq_false_2
               (Pos.to_nat max_files_per_dir < length (tn_children d))) by lia.
    rewrite !str_app_assoc. f_equal. apply Heq.
Qed.

Lemma print_children_eq_write (max_files_per_dir : positive) (d : tree_node) :
  fits (Pos.to_nat max_files_per_dir) d = true →
  tn_is_file d = false →
  length (tn_children d) ≤ Pos.to_nat max_files_per_dir ∧
  ∀ prefix, map add_LF (print_tree (tn_children d) prefix max_files_per_dir)
            = write_tree (tn_children d) prefix.
Proof.
  induction d as [b ch IH] using tree_node_nested_ind.
  simpl. intros Hfits ->. simpl in Hfits.
  apply andb_true_iff in Hfits as [Hfew%bool_decide_eq_true Hall].
  split; [done|].
  apply print_level_eq_write_level. intros nd Hnd Hfile.
  rewrite Forall_forall in IH. apply (IH nd Hnd); [|done].
  rewrite forallb_forall in Hall. by apply Hall, list_elem_of_In.
Qed.

(** X15.  When no directory of the tree has more than
    [max_files_per_dir] entries, [print_tree] prints exactly the lines
    that [write_tree] writes (apart from the line feed that ends each
    written line): the console tree and the tree in the output file differ
    only through truncation. *)
Theorem print_tree_eq_write_tree
    (t : list (string * tree_node)) (prefix : string)
    (max_files_per_dir : positive) :
  forallb (λ nd, fits (Pos.to_nat max_files_per_dir) nd.2) t = true →
  map add_LF (print_tree t prefix max_files_per_dir) = write_tree t prefix.
Proof.
  intros Hall. apply print_level_eq_write_level. intros nd Hnd Hfile.
  apply print_children_eq_write; [|done].
  rewrite forallb_forall in Hall. by apply Hall, list_elem_of_In.
Qed.

Lemma print_tree_eq_write_tree_witness :
  map add_LF
    (print_tree [("b.py", TreeNode true []);
                 ("a", TreeNode false [("c.py", TreeNode true [])])] "" 8)
  = write_tree [("b.py", TreeNode true []);
                ("a", TreeNode false [("c.py", TreeNode true [])])] "".
Proof.
  apply (print_tree_eq_write_tree
           [("b.py", TreeNode true []);
            ("a", TreeNode false [("c.py", TreeNode true [])])] "" 8).
  reflexivity.
Defined.

(** X16.  Graceful miss: when none of the requested names is defined in
    the file, the text stored for the file is its global-scope prologue
    alone (the empty string when there is none); nothing is raised. *)
Theorem missing_names_leave_prologue
    (fs : file_system) (X : Path) (names : list string) :
  "*" ∉ names →
  (∀ name, name ∈ names → extract_function_or_class fs X name = None) →
  file_code fs X names = Ok (get_global_variables fs X).
Proof.
  intros Hstar Hnone. unfold file_code.
  rewrite bool_decide_eq_false_2 by done. rewrite extract_names_bodies.
  assert (Hbodies : requested_bodies fs X names = []).
  { unfold requested_bodies. clear Hstar.
    induction names as [|name names IH]; simpl; [done|].
    rewrite IH by (intros n Hn; apply Hnone; by right).
    rewrite Hnone by left. by destruct (String.eqb name "*"). }
  rewrite Hbodies, app_nil_r.
  destruct (String.eqb (get_global_variables fs X) "") eqn:Hg; [|done].
  apply String.eqb_eq in Hg. by rewrite Hg.
Qed.

Lemma missing_names_leave_prologue_witness :
  file_code Example.fs1 Example.b_py ["baz"; "qux"] = Ok "X = 1".
Proof.
  apply (missing_names_leave_prologue Example.fs1 Example.b_py ["baz"; "qux"]).
  - apply (bool_decide_unpack _). vm_compute. exact I.
  - intros name Hname.
    repeat (apply elem_of_cons in Hname as [->|Hname]; [vm_compute; reflexivity|]).
    by apply elem_of_nil in Hname.
Defined.
